(** * scrub: collapsing a directory tree

    A shallow embedding of [scrub.c] and the properties of its clobber
    policy, its emptiness check, its tree walker and its exit status.

    Layout of the development:
    - C strings and the libc string functions the program calls;
    - [Configuration] and the clobber policy;
    - a model of the file system and of the system calls the program uses;
    - the program's routines, in the order of the source;
    - a structural description of one walk, used to reason about whole runs;
    - the policy on entries and the tree a run is to leave, the loop of
      [main] over the options, and the blocks the routines allocate;
    - the theorems. *)

From Stdlib Require Import ZArith List String Ascii Bool Lia Arith.
From Stdlib Require Import DecimalString.
Import ListNotations.

Local Open Scope Z_scope.
Local Open Scope list_scope.

(** String concatenation, kept apart from the list notation [++]. *)
Infix "+++" := String.append (right associativity, at level 60).

(* ================================================================== *)
(** * C strings and libc *)

Module Libc.

(** The line feed that ends every message the program prints. *)
Definition nl : string := String (ascii_of_nat 10) EmptyString.

(** The character ['.'] and the character ['/']. *)
Definition dot : ascii := "."%char.
Definition slash : ascii := "/"%char.

(** [strcmp]: the C standard fixes the sign of the result only; the model
    returns -1, 0 or 1. *)
Definition strcmp (s1 s2 : string) : Z :=
  match String.compare s1 s2 with
  | Eq => 0
  | Lt => -1
  | Gt => 1
  end.

(** [strrchr s c]: the suffix of [s] that starts at the last occurrence
    of [c], or [None] (the null pointer) when [c] does not occur. *)
Fixpoint strrchr (s : string) (c : ascii) : option string :=
  match s with
  | EmptyString => None
  | String a r =>
      match strrchr r c with
      | Some p => Some p
      | None => if Ascii.eqb a c then Some s else None
      end
  end.

(** [strchrnul s c], as an offset into [s]: the position of the first
    occurrence of [c], or the position of the terminating zero byte. *)
Fixpoint strchrnul (s : string) (c : ascii) : nat :=
  match s with
  | EmptyString => O
  | String a r => if Ascii.eqb a c then O else S (strchrnul r c)
  end.

(** Pointer increment on a [char*] that points into a string. *)
Definition ptr_incr (p : string) : string :=
  match p with
  | EmptyString => EmptyString
  | String _ r => r
  end.

(** [contains s c]: [c] occurs in [s]. *)
Fixpoint contains (s : string) (c : ascii) : bool :=
  match s with
  | EmptyString => false
  | String a r => Ascii.eqb a c || contains r c
  end.

(** Unsigned 32-bit and signed 32-bit wrap-around ([u32] and [int]). *)
Definition u32 (z : Z) : Z := z mod 2 ^ 32.
Definition s32 (z : Z) : Z := (z + 2 ^ 31) mod 2 ^ 32 - 2 ^ 31.

(** The conversion [%u] of the printf family, applied to a 32-bit value. *)
Definition fmt_u (z : Z) : string :=
  NilEmpty.string_of_uint (N.to_uint (Z.to_N (u32 z))).

End Libc.
Import Libc.

(* ================================================================== *)
(** * Program configuration *)

(** [Configuration]: the two arrays with their lengths are lists. *)
Record Configuration : Type := mkConfiguration {
  verbose : bool;
  simulate : bool;
  preserveHidden : bool;
  preserveSpecial : bool;
  clobberExtensions : list string;
  clobberNames : list string
}.

Definition Configuration_new : Configuration :=
  {| verbose := false;
     simulate := false;
     preserveHidden := false;
     preserveSpecial := false;
     clobberExtensions := [];
     clobberNames := [] |}.

Definition Configuration_clobberExtension (config : Configuration) (extension : string)
  : Configuration :=
  {| verbose := verbose config;
     simulate := simulate config;
     preserveHidden := preserveHidden config;
     preserveSpecial := preserveSpecial config;
     clobberExtensions := clobberExtensions config ++ [extension];
     clobberNames := clobberNames config |}.

Definition Configuration_clobberName (config : Configuration) (name : string)
  : Configuration :=
  {| verbose := verbose config;
     simulate := simulate config;
     preserveHidden := preserveHidden config;
     preserveSpecial := preserveSpecial config;
     clobberExtensions := clobberExtensions config;
     clobberNames := clobberNames config ++ [name] |}.

(** The linear search both lookups run: [index] walks the array from its
    first cell, and the first cell [strcmp] reports equal ends the loop. *)
Fixpoint linear_search (cells : list string) (key : string) : bool :=
  match cells with
  | [] => false
  | cell :: rest =>
      if strcmp key cell =? 0 then true else linear_search rest key
  end.

Definition Configuration_shouldClobberExtension (config : Configuration)
  (extension : string) : bool :=
  linear_search (clobberExtensions config) extension.

Definition Configuration_shouldClobberName (config : Configuration)
  (name : string) : bool :=
  linear_search (clobberNames config) name.

(** ** Policy on names *)

Definition File_shouldClobber (config : Configuration) (basename : string) : bool :=
  if Configuration_shouldClobberName config basename then true
  else
    match strrchr basename dot with
    | Some extensionStart =>
        Configuration_shouldClobberExtension config (ptr_incr extensionStart)
    | None => false
    end.

(** [basename - strchrnul(basename, '.')] is the negated offset. *)
Definition File_isHidden (basename : string) : bool :=
  (0 - Z.of_nat (strchrnul basename dot)) =? 0.

(* ================================================================== *)
(** * The file system and the system calls *)

Module Posix.

(** Error numbers, with the values of Linux's [<errno.h>]. *)
Definition ENOENT : Z := 2.
Definition EACCES : Z := 13.
Definition EBUSY : Z := 16.
Definition ENOTDIR : Z := 20.
Definition EISDIR : Z := 21.
Definition EINVAL : Z := 22.
Definition ENOTEMPTY : Z := 39.

(** The values [d_type] takes, from [<dirent.h>]. *)
Inductive d_type_t : Type :=
| DT_UNKNOWN | DT_FIFO | DT_CHR | DT_DIR | DT_BLK | DT_REG | DT_LNK | DT_SOCK | DT_WHT.

(** [struct dirent], cut down to the two fields the program reads. *)
Record DirEntry : Type := mkDirEntry {
  d_name : string;
  d_type : d_type_t
}.

(** An object of the file system. [NonDir] is anything [stat] does not
    report as a directory. A directory holds its permission to be read
    ([opendir]) and to be written (entries removed), and its entries in the
    order [readdir] returns them, each with the [d_type] the file system
    reports for it: the true type, or [DT_UNKNOWN].

    The model leaves out what the program does not depend on: every
    directory can be searched, a symbolic link is an object of its own
    ([stat] does not follow it), and nothing else changes the tree while
    the program runs. *)
#[local] Unset Elimination Schemes.
Inductive inode : Type :=
| NonDir : inode
| Dir (readable writable : bool) (entries : list (DirEntry * inode)) : inode.
#[local] Set Elimination Schemes.

Definition is_dir (n : inode) : bool :=
  match n with
  | NonDir => false
  | Dir _ _ _ => true
  end.

(** [st_mode] and [S_ISDIR], from [<sys/stat.h>]. *)
Definition S_IFMT : Z := 61440.
Definition S_IFDIR : Z := 16384.
Definition S_IFREG : Z := 32768.
Definition S_ISDIR (mode : Z) : bool := Z.land mode S_IFMT =? S_IFDIR.

Definition mode_of (n : inode) : Z :=
  match n with
  | NonDir => Z.lor S_IFREG 420
  | Dir r w _ => Z.lor S_IFDIR (Z.lor 64 (Z.lor (if r then 256 else 0) (if w then 128 else 0)))
  end.

(** The state the program runs in: the tree under the directory paths are
    resolved from, [errno], what was written to the error stream (one
    element per call of [vfprintf]), the number of directory streams that
    are open, and the [st_mode] an uninitialised [struct stat] holds (what
    the program reads when it ignores a failed [stat]). *)
Record World : Type := mkWorld {
  fs : inode;
  errno : Z;
  stderr : list string;
  open_dirs : nat;
  uninit_st_mode : Z
}.

Definition with_fs (t : inode) (w : World) : World :=
  {| fs := t; errno := errno w; stderr := stderr w;
     open_dirs := open_dirs w; uninit_st_mode := uninit_st_mode w |}.

Definition with_errno (e : Z) (w : World) : World :=
  {| fs := fs w; errno := e; stderr := stderr w;
     open_dirs := open_dirs w; uninit_st_mode := uninit_st_mode w |}.

Definition with_stderr (o : list string) (w : World) : World :=
  {| fs := fs w; errno := errno w; stderr := o;
     open_dirs := open_dirs w; uninit_st_mode := uninit_st_mode w |}.

Definition with_open_dirs (k : nat) (w : World) : World :=
  {| fs := fs w; errno := errno w; stderr := stderr w;
     open_dirs := k; uninit_st_mode := uninit_st_mode w |}.

(** A system call that fails returns -1 and sets [errno]. *)
Definition fail (e : Z) (w : World) : World * Z := (with_errno e w, -1).

(** ** Path resolution *)

(** The components of a path, cut at every ['/']. *)
Fixpoint split_slash (s : string) : list string :=
  match s with
  | EmptyString => [EmptyString]
  | String c r =>
      if Ascii.eqb c slash then EmptyString :: split_slash r
      else
        match split_slash r with
        | h :: t => String c h :: t
        | [] => [String c EmptyString]
        end
  end.

(** One component against the components walked so far (last one first):
    an empty component and ["."] stay, [".."] goes up, a name goes down. *)
Definition path_step (walked : list string) (c : string) : list string :=
  if (c =? "")%string || (c =? ".")%string then walked
  else if (c =? "..")%string then tl walked
  else c :: walked.

Definition resolve (path : string) : list string :=
  rev (fold_left path_step (split_slash path) []).

Definition find_entry (name : string) (es : list (DirEntry * inode))
  : option (DirEntry * inode) :=
  find (fun e => (d_name (fst e) =? name)%string) es.

(** A directory holds a name once (see [wf_inode] below); removal drops
    the name, update rewrites the entry [find_entry] finds. *)
Definition remove_entry (name : string) (es : list (DirEntry * inode))
  : list (DirEntry * inode) :=
  filter (fun e => negb (d_name (fst e) =? name)%string) es.

Fixpoint update_entry (name : string) (f : inode -> inode)
  (es : list (DirEntry * inode)) : list (DirEntry * inode) :=
  match es with
  | [] => []
  | e :: rest =>
      if (d_name (fst e) =? name)%string then (fst e, f (snd e)) :: rest
      else e :: update_entry name f rest
  end.

(** The object a list of names leads to, or the error number. *)
Fixpoint lookup (ns : list string) (n : inode) : inode + Z :=
  match ns with
  | [] => inl n
  | c :: cs =>
      match n with
      | NonDir => inr ENOTDIR
      | Dir _ _ es =>
          match find_entry c es with
          | None => inr ENOENT
          | Some (_, child) => lookup cs child
          end
      end
  end.

(** [modify ns f n]: [n] with the object at [ns] replaced by its image. *)
Fixpoint modify (ns : list string) (f : inode -> inode) (n : inode) : inode :=
  match ns with
  | [] => f n
  | c :: cs =>
      match n with
      | NonDir => n
      | Dir r w es => Dir r w (update_entry c (modify cs f) es)
      end
  end.

Definition split_last {A : Type} (l : list A) : option (list A * A) :=
  match rev l with
  | [] => None
  | x :: r => Some (rev r, x)
  end.

(** ** Removal *)

(** What [unlink] and [rmdir] check on the entry they are to remove, given
    whether its directory can be written: [None] when the removal goes
    ahead, the error number otherwise. *)
Definition unlink_check (writable : bool) (target : inode) : option Z :=
  if negb writable then Some EACCES
  else if is_dir target then Some EISDIR
  else None.

Definition rmdir_check (writable : bool) (target : inode) : option Z :=
  if negb writable then Some EACCES
  else
    match target with
    | NonDir => Some ENOTDIR
    | Dir _ _ [] => None
    | Dir _ _ (_ :: _) => Some ENOTEMPTY
    end.

(** Removal of the entry [name] of the directory at [parent], under the
    given check. *)
Definition remove_under (check : bool -> inode -> option Z)
  (parent : list string) (name : string) (w : World) : World * Z :=
  match lookup parent (fs w) with
  | inr e => fail e w
  | inl NonDir => fail ENOTDIR w
  | inl (Dir r wr es) =>
      match find_entry name es with
      | None => fail ENOENT w
      | Some (_, target) =>
          match check wr target with
          | Some e => fail e w
          | None =>
              (with_fs (modify parent (fun _ => Dir r wr (remove_entry name es)) (fs w)) w, 0)
          end
      end
  end.

(** [unlink(path)]; the directory paths are resolved from is no entry. *)
Definition unlink (path : string) (w : World) : World * Z :=
  match split_last (resolve path) with
  | None => fail EISDIR w
  | Some (parent, name) => remove_under unlink_check parent name w
  end.

(** [rmdir(path)]. *)
Definition rmdir (path : string) (w : World) : World * Z :=
  match split_last (resolve path) with
  | None => fail EBUSY w
  | Some (parent, name) => remove_under rmdir_check parent name w
  end.

(** ** Inspection *)

(** [stat(path, &buf)]: the return value, and [buf.st_mode] after the
    call; a failed call leaves the buffer as it was. *)
Definition stat (path : string) (w : World) : World * Z * Z :=
  match lookup (resolve path) (fs w) with
  | inl n => (w, 0, mode_of n)
  | inr e => (with_errno e w, -1, uninit_st_mode w)
  end.

(** A directory stream ([DIR*]): the entries [readdir] has yet to return.
    Reading pops the first one; the end of the stream is the empty list. *)
Definition Directory : Type := list DirEntry.

Definition dot_entry : DirEntry := {| d_name := "."; d_type := DT_DIR |}.
Definition dotdot_entry : DirEntry := {| d_name := ".."; d_type := DT_DIR |}.

(** What [opendir] decides on the object it reached. *)
Definition opendir_node (n : inode) : Directory + Z :=
  match n with
  | NonDir => inr ENOTDIR
  | Dir r _ es =>
      if r then inl (dot_entry :: dotdot_entry :: map fst es) else inr EACCES
  end.

(** [opendir(path)]: the stream, or the null pointer with [errno] set. The
    stream is the directory as it is when opened; the program removes only
    entries the stream has already returned. *)
Definition opendir (path : string) (w : World) : World * option Directory :=
  match lookup (resolve path) (fs w) with
  | inr e => (with_errno e w, None)
  | inl n =>
      match opendir_node n with
      | inl dir => (with_open_dirs (S (open_dirs w)) w, Some dir)
      | inr e => (with_errno e w, None)
      end
  end.

Definition readdir (dir : Directory) : option DirEntry * Directory :=
  match dir with
  | [] => (None, [])
  | entry :: rest => (Some entry, rest)
  end.

Definition closedir (w : World) : World :=
  with_open_dirs (Nat.pred (open_dirs w)) w.

(** [basename] of [<libgen.h>]: trailing slashes dropped, then what
    follows the last slash; ["."] for the empty path, ["/"] for slashes
    only. *)
Fixpoint strip_slashes (s : string) : string :=
  match s with
  | EmptyString => EmptyString
  | String a r =>
      let r' := strip_slashes r in
      if (r' =? "")%string && Ascii.eqb a slash then EmptyString else String a r'
  end.

Fixpoint last_component (s : string) : string :=
  match s with
  | EmptyString => EmptyString
  | String a r =>
      if contains r slash then last_component r
      else if Ascii.eqb a slash then r
      else s
  end.

Definition basename (path : string) : string :=
  if (path =? "")%string then "."%string
  else
    let t := strip_slashes path in
    if (t =? "")%string then "/"%string else last_component t.

End Posix.
Import Posix.

(* ================================================================== *)
(** * The program *)

Definition ENONE : Z := 0.

Definition Runtime_putError (message : string) (w : World) : World :=
  with_stderr (stderr w ++ [message]) w.

Definition Runtime_verbose (config : Configuration) (message : string) (w : World)
  : World :=
  if verbose config then with_stderr (stderr w ++ [message]) w else w.

Definition Runtime_printHelp (executableName : string) (w : World) : World :=
  Runtime_putError
    (executableName +++ " - try to clean a directory tree" +++ nl
     +++ nl
     +++ "-h     --help" +++ nl
     +++ "   Print help (this message)" +++ nl
     +++ nl
     +++ "-cext  --clobber-extension=ext" +++ nl
     +++ "   Add `ext` to the list of extensions to be deleted" +++ nl
     +++ nl
     +++ "-Cname --clobber-name=name" +++ nl
     +++ "   Add `name` to the list of file names to be deleted" +++ nl
     +++ nl
     +++ "-H     --preserve-hidden" +++ nl
     +++ "   Rather than treating hidden directories as normal directories, halt when one is discovered" +++ nl
     +++ nl
     +++ "--preserve-special" +++ nl
     +++ "   Do not delete special files (such as sockets, block devices, and pipes)" +++ nl
     +++ nl
     +++ "--simulate" +++ nl
     +++ "   Rather than calling unlink() and the like, output a message" +++ nl
     +++ nl
     +++ "--verbose" +++ nl
     +++ "   Verbose logging output" +++ nl)
    w.

(** ** Messages *)

Definition msg_unlink (path : string) : string :=
  "unlink(" +++ path +++ ")" +++ nl.

Definition msg_could_not_unlink (path : string) (e : Z) : string :=
  "Could not unlink " +++ path +++ ": ERRNO " +++ fmt_u e +++ nl.

Definition msg_isEmpty_open (path : string) (e : Z) : string :=
  "Directory_isEmpty(" +++ path +++ "): could not open directory: ERRNO "
  +++ fmt_u e +++ nl.

Definition msg_could_not_unlink_directory (path : string) (e : Z) : string :=
  "Could not unlink directory " +++ path +++ ": ERRNO " +++ fmt_u e +++ nl.

Definition msg_not_empty (path : string) : string :=
  "Directory " +++ path +++ " is not empty. Not unlinking." +++ nl.

Definition msg_could_not_process (path : string) (e : Z) : string :=
  "Could not process directory " +++ path +++ ": ERRNO " +++ fmt_u e +++ nl.

Definition msg_File_process_failed (path : string) (e : Z) : string :=
  "File_process(" +++ path +++ ") failed: ERRNO " +++ fmt_u e +++ nl.

(** ** Removal *)

(** [File_unlink] returns [u32]: the [int] of [rmdir] and [unlink] is
    converted. The result of [stat] is not looked at. *)
Definition File_unlink (config : Configuration) (path : string) (w : World)
  : World * Z :=
  if simulate config then
    (Runtime_putError (msg_unlink path) w, 0)
  else
    let '(w1, _, st_mode) := stat path w in
    if S_ISDIR st_mode then
      let '(w2, r) := rmdir path w1 in (w2, u32 r)
    else
      let '(w2, r) := unlink path w1 in (w2, u32 r).

(** ** The emptiness check *)

(** The loop of [Directory_isEmpty]: the value of [index] when the loop
    ends, and the stream at that point. *)
Fixpoint Directory_isEmpty_loop (dir : Directory) (index : Z) : Z * Directory :=
  match dir with
  | [] => (index, [])
  | _ :: rest =>
      let index := u32 (index + 1) in
      if index >? 2 then (index, rest)
      else Directory_isEmpty_loop rest index
  end.

Definition Directory_isEmpty (path : string) (w : World) : World * bool :=
  match opendir path w with
  | (w1, Some dir) =>
      let '(index, _) := Directory_isEmpty_loop dir 0 in
      (closedir w1, index <=? 2)
  | (w1, None) =>
      (Runtime_putError (msg_isEmpty_open path (errno w1)) w1, false)
  end.

(** ** One file *)

Definition File_process (config : Configuration) (path : string) (w : World)
  : World * Z :=
  let fileName := basename path in
  let shouldClobber := File_shouldClobber config fileName in
  if shouldClobber then
    let '(w1, r) := File_unlink config path w in
    if r =? u32 (-1) then
      let w2 := Runtime_putError (msg_could_not_unlink path (errno w1)) w1 in
      (w2, errno w2)
    else (w1, ENONE)
  else (w, ENONE).

(** ** The tree walker *)

Definition entry_path (path name : string) : string :=
  path +++ "/" +++ name.

(** The cases [DT_UNKNOWN] and [DT_REG] of the switch, which the special
    types fall through to. *)
Definition Directory_process_file (config : Configuration)
  (currentEntryPath : string) (w : World) : World :=
  let '(w1, r) := File_process config currentEntryPath w in
  let returnStatus := u32 r in
  if returnStatus =? ENONE then w1
  else Runtime_verbose config (msg_File_process_failed currentEntryPath returnStatus) w1.

(** The body of the loop of [Directory_process], for one entry. [rec] is
    the recursive call. [None] is a recursive call that ran out of fuel. *)
Definition Directory_process_entry
  (rec : string -> World -> option (World * Z))
  (config : Configuration) (path : string) (currentEntry : DirEntry) (w : World)
  : option World :=
  if (strcmp (d_name currentEntry) "." =? 0) || (strcmp (d_name currentEntry) ".." =? 0)
  then Some w
  else
    let currentEntryPath := entry_path path (d_name currentEntry) in
    match d_type currentEntry with
    | DT_DIR =>
        if preserveHidden config && File_isHidden (d_name currentEntry) then Some w
        else
          match rec currentEntryPath w with
          | None => None
          | Some (w1, r) =>
              let completionState := u32 r in
              if completionState =? ENONE then
                let '(w2, empty) := Directory_isEmpty currentEntryPath w1 in
                if empty then
                  let '(w3, rc) := File_unlink config currentEntryPath w2 in
                  if rc =? u32 (-1) then
                    Some (Runtime_putError
                            (msg_could_not_unlink_directory currentEntryPath (errno w3)) w3)
                  else Some w3
                else
                  Some (Runtime_verbose config (msg_not_empty currentEntryPath) w2)
              else
                Some (Runtime_putError
                        (msg_could_not_process currentEntryPath completionState) w1)
          end
    | DT_BLK | DT_CHR | DT_FIFO | DT_LNK | DT_SOCK =>
        if preserveSpecial config then Some w
        else Some (Directory_process_file config currentEntryPath w)
    | DT_UNKNOWN | DT_REG =>
        Some (Directory_process_file config currentEntryPath w)
    | DT_WHT => Some w
    end.

(** The loop of [Directory_process] over the stream. *)
Fixpoint Directory_process_loop
  (rec : string -> World -> option (World * Z))
  (config : Configuration) (path : string) (dir : Directory) (w : World)
  : option World :=
  match dir with
  | [] => Some w
  | currentEntry :: rest =>
      match Directory_process_entry rec config path currentEntry w with
      | None => None
      | Some w1 => Directory_process_loop rec config path rest w1
      end
  end.

(** [Directory_process]: the recursion goes down the tree, and [fuel]
    bounds its depth. *)
Fixpoint Directory_process (fuel : nat) (config : Configuration) (path : string)
  (w : World) : option (World * Z) :=
  match fuel with
  | O => None
  | S fuel' =>
      match opendir path w with
      | (w1, Some dir) =>
          match Directory_process_loop (Directory_process fuel' config) config path dir w1 with
          | None => None
          | Some w2 => Some (closedir w2, s32 (u32 ENONE))
          end
      | (w1, None) => Some (w1, s32 (u32 (errno w1)))
      end
  end.

(** ** The entry point, after the options are parsed *)

(** The body of the loop over the files, for one of them: the state and
    the flag [dirty] after it. *)
Definition main_file (fuel : nat) (runtimeConfig : Configuration)
  (fileName : string) (dirty : bool) (w : World) : option (World * bool) :=
  let '(w1, _, st_mode) := stat fileName w in
  if S_ISDIR st_mode then
    let w2 := Runtime_verbose runtimeConfig ("Processing directory " +++ fileName +++ nl) w1 in
    match Directory_process fuel runtimeConfig fileName w2 with
    | None => None
    | Some (w3, _) =>
        let '(w4, empty) := Directory_isEmpty fileName w3 in
        Some (w4, if empty then dirty else true)
    end
  else
    let w2 := Runtime_verbose runtimeConfig ("Processing node " +++ fileName +++ nl) w1 in
    let '(w3, _) := File_process runtimeConfig fileName w2 in
    Some (w3, dirty).

Fixpoint main_loop (fuel : nat) (runtimeConfig : Configuration)
  (files : list string) (dirty : bool) (w : World) : option (World * bool) :=
  match files with
  | [] => Some (w, dirty)
  | fileName :: rest =>
      match main_file fuel runtimeConfig fileName dirty w with
      | None => None
      | Some (w1, dirty1) => main_loop fuel runtimeConfig rest dirty1 w1
      end
  end.

(** [main] from the point where [getopt_long] has returned -1:
    [runtimeConfig] is the configuration the options built and [files] are
    the arguments that are left. The result is the exit status. *)
Definition main (fuel : nat) (imageName : string) (runtimeConfig : Configuration)
  (files : list string) (w : World) : option (World * Z) :=
  match files with
  | [] => Some (Runtime_printHelp imageName w, ENONE)
  | _ :: _ =>
      match main_loop fuel runtimeConfig files false w with
      | None => None
      | Some (w1, dirty) => Some (w1, if dirty then ENOTEMPTY else ENONE)
      end
  end.

(* ================================================================== *)
(** * Well-formed trees *)

(** A name a directory can hold: not empty, not ["."] or [".."], and
    without ['/']. *)
Definition valid_name (s : string) : bool :=
  negb (s =? "")%string && negb (s =? ".")%string && negb (s =? "..")%string
  && negb (contains s slash).

Fixpoint distinct (names : list string) : bool :=
  match names with
  | [] => true
  | n :: rest => negb (existsb (String.eqb n) rest) && distinct rest
  end.

Definition names_of (es : list (DirEntry * inode)) : list string :=
  map (fun e => d_name (fst e)) es.

(** Every directory holds valid names, each once. *)
Fixpoint wf_inode (n : inode) : bool :=
  match n with
  | NonDir => true
  | Dir _ _ es =>
      distinct (map (fun e => d_name (fst e)) es)
      && forallb (fun e => valid_name (d_name (fst e)) && wf_inode (snd e)) es
  end.

(** The number of objects on the longest way down from [n]. *)
Fixpoint height (n : inode) : nat :=
  match n with
  | NonDir => 1%nat
  | Dir _ _ es => S (fold_right (fun e m => Nat.max (height (snd e)) m) 0%nat es)
  end.

(** Induction on a tree, with the hypothesis for every entry. *)
Fixpoint inode_ind (P : inode -> Prop)
  (HN : P NonDir)
  (HD : forall r w es, Forall (fun e => P (snd e)) es -> P (Dir r w es))
  (n : inode) {struct n} : P n :=
  match n with
  | NonDir => HN
  | Dir r w es =>
      HD r w es
        ((fix all (l : list (DirEntry * inode)) : Forall (fun e => P (snd e)) l :=
            match l with
            | [] => Forall_nil _
            | e :: rest => Forall_cons e (inode_ind P HN HD (snd e)) (all rest)
            end) es)
  end.

(** ** Trees and configurations for the examples *)

Definition entry (name : string) (type : d_type_t) (n : inode) : DirEntry * inode :=
  ({| d_name := name; d_type := type |}, n).

(** The tree of the cascade: [root/a/b/file.tmp] beside [root/keep.txt];
    an empty directory; a directory that cannot be read; a directory that
    cannot be written, with a file and an empty directory in it. *)
Definition example_tree : inode :=
  Dir true true
    [ entry "root" DT_DIR
        (Dir true true
           [ entry "a" DT_DIR
               (Dir true true
                  [ entry "b" DT_DIR (Dir true true [ entry "file.tmp" DT_REG NonDir ]) ]);
             entry "keep.txt" DT_REG NonDir ]);
      entry "empty" DT_DIR (Dir true true []);
      entry "locked" DT_DIR (Dir false true []);
      entry "ro" DT_DIR
        (Dir true false
           [ entry "a.tmp" DT_REG NonDir;
             entry "d" DT_DIR (Dir true true []) ]);
      entry "f.tmp" DT_REG NonDir ].

(** A directory [q] whose directory [r] holds the named pipe [s.tmp]. *)
Definition pipe_tree : inode :=
  Dir true true
    [ entry "q" DT_DIR
        (Dir true true
           [ entry "r" DT_DIR (Dir true true [ entry "s.tmp" DT_FIFO NonDir ]) ]) ].

(** The configuration of [scrub -c tmp]. *)
Definition config_tmp : Configuration :=
  Configuration_clobberExtension Configuration_new "tmp".

(** The configuration of [scrub -c tmp -C core]. *)
Definition config_tmp_core : Configuration :=
  Configuration_clobberName (Configuration_clobberExtension Configuration_new "tmp") "core".

(** The configuration of [scrub --preserve-special -c tmp]. *)
Definition config_tmp_special : Configuration :=
  {| verbose := false;
     simulate := false;
     preserveHidden := false;
     preserveSpecial := true;
     clobberExtensions := ["tmp"%string];
     clobberNames := [] |}.

(** The configuration of [scrub --simulate -c tmp]. *)
Definition config_tmp_simulate : Configuration :=
  {| verbose := false;
     simulate := true;
     preserveHidden := false;
     preserveSpecial := false;
     clobberExtensions := ["tmp"%string];
     clobberNames := [] |}.

(** [entries_run rec config path dir w w']: the loop of
    [Directory_process] gives every entry of the stream [dir] its turn, in
    order, each from the state the one before it left; [w'] is the state
    after the last. *)
Inductive entries_run (rec : string -> World -> option (World * Z))
  (config : Configuration) (path : string) : Directory -> World -> World -> Prop :=
| entries_run_nil (w : World) : entries_run rec config path [] w w
| entries_run_cons (currentEntry : DirEntry) (rest : Directory) (w w1 w2 : World) :
    Directory_process_entry rec config path currentEntry w = Some w1 ->
    entries_run rec config path rest w1 w2 ->
    entries_run rec config path (currentEntry :: rest) w w2.

(** [root_left_nonempty fuel config files w]: in the run over [files]
    from [w], some file is a directory by [stat] when its turn comes, and
    [Directory_isEmpty], called on it when its walk has returned, returns
    false. *)
Inductive root_left_nonempty (fuel : nat) (config : Configuration)
  : list string -> World -> Prop :=
| root_nonempty_here (fileName : string) (rest : list string)
    (w w1 w3 w4 : World) (rc mode rv : Z) :
    stat fileName w = (w1, rc, mode) ->
    S_ISDIR mode = true ->
    Directory_process fuel config fileName
      (Runtime_verbose config ("Processing directory " +++ fileName +++ nl) w1)
    = Some (w3, rv) ->
    Directory_isEmpty fileName w3 = (w4, false) ->
    root_left_nonempty fuel config (fileName :: rest) w
| root_nonempty_later (fileName : string) (rest : list string)
    (w w1 : World) (dirty : bool) :
    main_file fuel config fileName false w = Some (w1, dirty) ->
    root_left_nonempty fuel config rest w1 ->
    root_left_nonempty fuel config (fileName :: rest) w.

(** [roots_not_directories config files w]: in the run over [files] from
    [w], no file is a directory by [stat] when its turn comes. *)
Fixpoint roots_not_directories (config : Configuration) (files : list string)
  (w : World) : Prop :=
  match files with
  | [] => True
  | fileName :: rest =>
      S_ISDIR (snd (stat fileName w)) = false
      /\ roots_not_directories config rest
           (fst (File_process config fileName
                   (Runtime_verbose config ("Processing node " +++ fileName +++ nl)
                      (fst (fst (stat fileName w))))))
  end.

(** The error numbers a failed [rmdir] or [unlink] leaves in [errno]. *)
Definition error_numbers : list Z :=
  [ENOENT; EACCES; EBUSY; ENOTDIR; EISDIR; ENOTEMPTY].

(** A process as it starts: nothing written, no stream open. *)
Definition fresh_process (t : inode) (junk : Z) : World :=
  {| fs := t; errno := 0; stderr := []; open_dirs := 0; uninit_st_mode := junk |}.

(** The lines that report a failure: those of [Runtime_putError] other
    than the line of a simulated removal, and the verbose line that
    follows a failed [File_process]. *)
Definition is_error_line (line : string) : bool :=
  String.prefix "Could not" line
  || String.prefix "Directory_isEmpty" line
  || String.prefix "File_process" line.

Definition no_error_lines (lines : list string) : bool :=
  forallb (fun line => negb (is_error_line line)) lines.

(* ================================================================== *)
(** * One walk, described on the tree

    What the routines do to one entry of a directory, given the entry's
    object, whether the directory can be written, and [errno]: the entry's
    object afterwards ([None] when the entry is gone), [errno], the lines
    written, and the value returned. The walk of a directory is then a
    function of the directory's object alone. [collapse_node] is compared
    with [Directory_process] in the theorems below. *)

Definition verbose_lines (config : Configuration) (message : string) : list string :=
  if verbose config then [message] else [].

Definition File_unlink_node (config : Configuration) (writable : bool)
  (path : string) (target : inode) (e : Z) : option inode * Z * list string * Z :=
  if simulate config then (Some target, e, [msg_unlink path], 0)
  else
    match (if S_ISDIR (mode_of target) then rmdir_check writable target
           else unlink_check writable target) with
    | None => (None, e, [], u32 0)
    | Some err => (Some target, err, [], u32 (-1))
    end.

Definition Directory_isEmpty_node (path : string) (target : inode) (e : Z)
  : bool * Z * list string :=
  match opendir_node target with
  | inl dir => (fst (Directory_isEmpty_loop dir 0) <=? 2, e, [])
  | inr err => (false, err, [msg_isEmpty_open path err])
  end.

Definition File_process_node (config : Configuration) (writable : bool)
  (path : string) (target : inode) (e : Z) : option inode * Z * list string * Z :=
  if File_shouldClobber config (basename path) then
    let '(res, e1, d1, r) := File_unlink_node config writable path target e in
    if r =? u32 (-1) then (res, e1, d1 ++ [msg_could_not_unlink path e1], e1)
    else (res, e1, d1, ENONE)
  else (Some target, e, [], ENONE).

Definition Directory_process_file_node (config : Configuration) (writable : bool)
  (path : string) (target : inode) (e : Z) : option inode * Z * list string :=
  let '(res, e1, d1, r) := File_process_node config writable path target e in
  let returnStatus := u32 r in
  if returnStatus =? ENONE then (res, e1, d1)
  else (res, e1, d1 ++ verbose_lines config (msg_File_process_failed path returnStatus)).

(** One entry of a directory that can be read, at [path]; [walk] is the
    walk of the entry's own object. *)
Definition collapse_entry (config : Configuration) (writable : bool) (path : string)
  (walk : string -> Z -> inode * Z * list string * Z)
  (currentEntry : DirEntry) (target : inode) (e : Z)
  : option inode * Z * list string :=
  if (strcmp (d_name currentEntry) "." =? 0) || (strcmp (d_name currentEntry) ".." =? 0)
  then (Some target, e, [])
  else
    let currentEntryPath := entry_path path (d_name currentEntry) in
    match d_type currentEntry with
    | DT_DIR =>
        if preserveHidden config && File_isHidden (d_name currentEntry)
        then (Some target, e, [])
        else
          let '(c1, e1, d1, r) := walk currentEntryPath e in
          let completionState := u32 r in
          if completionState =? ENONE then
            let '(empty, e2, d2) := Directory_isEmpty_node currentEntryPath c1 e1 in
            if empty then
              let '(res, e3, d3, rc) :=
                File_unlink_node config writable currentEntryPath c1 e2 in
              if rc =? u32 (-1) then
                (res, e3,
                 d1 ++ d2 ++ d3 ++ [msg_could_not_unlink_directory currentEntryPath e3])
              else (res, e3, d1 ++ d2 ++ d3)
            else
              (Some c1, e2,
               d1 ++ d2 ++ verbose_lines config (msg_not_empty currentEntryPath))
          else
            (Some c1, e1, d1 ++ [msg_could_not_process currentEntryPath completionState])
    | DT_BLK | DT_CHR | DT_FIFO | DT_LNK | DT_SOCK =>
        if preserveSpecial config then (Some target, e, [])
        else Directory_process_file_node config writable currentEntryPath target e
    | DT_UNKNOWN | DT_REG =>
        Directory_process_file_node config writable currentEntryPath target e
    | DT_WHT => (Some target, e, [])
    end.

(** The entries of a directory, in order. *)
Fixpoint collapse_entries (config : Configuration) (writable : bool) (path : string)
  (walk : inode -> string -> Z -> inode * Z * list string * Z)
  (es : list (DirEntry * inode)) (e : Z)
  : list (DirEntry * inode) * Z * list string :=
  match es with
  | [] => ([], e, [])
  | (currentEntry, target) :: rest =>
      let '(res, e1, d1) :=
        collapse_entry config writable path (walk target) currentEntry target e in
      let '(rest', e2, d2) := collapse_entries config writable path walk rest e1 in
      (match res with
       | Some target' => (currentEntry, target') :: rest'
       | None => rest'
       end, e2, d1 ++ d2)
  end.

(** The walk of the object [n] at [path]: the object afterwards, [errno],
    the lines written and the value [Directory_process] returns. *)
Fixpoint collapse_node (config : Configuration) (n : inode) (path : string) (e : Z)
  {struct n} : inode * Z * list string * Z :=
  match n with
  | NonDir => (n, ENOTDIR, [], s32 (u32 ENOTDIR))
  | Dir r wr es =>
      if r then
        let '(es', e', d) :=
          collapse_entries config wr path (collapse_node config) es e in
        (Dir r wr es', e', d, s32 (u32 ENONE))
      else (n, EACCES, [], s32 (u32 EACCES))
  end.

(** A directory's entries after a routine has dealt with the entry [nm]:
    [res] is that entry's object afterwards, [None] when it is gone. *)
Definition set_entry (nm : string) (res : option inode)
  (live : list (DirEntry * inode)) : list (DirEntry * inode) :=
  match res with
  | Some target => update_entry nm (fun _ => target) live
  | None => remove_entry nm live
  end.

(** In [w], the names [ns] lead to a directory that holds the entry [nm]. *)
Definition focused (ns : list string) (r wr : bool) (live : list (DirEntry * inode))
  (nm : string) (de : DirEntry) (c : inode) (w : World) : Prop :=
  lookup ns (fs w) = inl (Dir r wr live) /\ find_entry nm live = Some (de, c).

(** [w] with [errno] set and lines written. *)
Definition touch (e : Z) (lines : list string) (w : World) : World :=
  {| fs := fs w;
     errno := e;
     stderr := stderr w ++ lines;
     open_dirs := open_dirs w;
     uninit_st_mode := uninit_st_mode w |}.

(** [settled config n]: a walk of [n] that returns [ENONE] and reports no
    failure leaves an object on which a further walk changes nothing, sets
    no [errno] and reports no failure. *)
Definition settled (config : Configuration) (n : inode) : Prop :=
  forall path e n1 e1 d1 rv,
    collapse_node config n path e = (n1, e1, d1, rv) ->
    u32 rv = ENONE ->
    no_error_lines d1 = true ->
    forall e2, exists d2,
      collapse_node config n1 path e2 = (n1, e2, d2, 0)
      /\ no_error_lines d2 = true.

(** [w] after a walk that leaves [n'] at [ns]. *)
Definition put (ns : list string) (n' : inode) (e : Z) (lines : list string) (w : World)
  : World :=
  {| fs := modify ns (fun _ => n') (fs w);
     errno := e;
     stderr := stderr w ++ lines;
     open_dirs := open_dirs w;
     uninit_st_mode := uninit_st_mode w |}.

(* ================================================================== *)
(** * The policy on entries, and the tree a run is to leave *)

Definition is_DT_DIR (t : d_type_t) : bool :=
  match t with
  | DT_DIR => true
  | _ => false
  end.

(** [protected config de]: by its [d_type] and [d_name] alone, the entry
    [de] is one the walker passes by: a hidden directory under
    [preserveHidden], a special file under [preserveSpecial], a whiteout,
    and an entry handled as a file whose name [File_shouldClobber]
    rejects. *)
Definition protected (config : Configuration) (de : DirEntry) : bool :=
  match d_type de with
  | DT_DIR => preserveHidden config && File_isHidden (d_name de)
  | DT_BLK | DT_CHR | DT_FIFO | DT_LNK | DT_SOCK =>
      preserveSpecial config || negb (File_shouldClobber config (d_name de))
  | DT_UNKNOWN | DT_REG => negb (File_shouldClobber config (d_name de))
  | DT_WHT => true
  end.

(** A directory that holds an entry. *)
Definition occupied (n : inode) : bool :=
  match n with
  | Dir _ _ (_ :: _) => true
  | _ => false
  end.

(** [held rel r0 w0 nm de target c]: in [c], the names [rel] lead to a
    directory with the flags [r0] and [w0] that holds the entry [de] under
    the name [nm], with the object [target]. *)
Definition held (rel : list string) (r0 w0 : bool) (nm : string) (de : DirEntry)
  (target : inode) (c : inode) : Prop :=
  exists es0, lookup rel c = inl (Dir r0 w0 es0) /\ find_entry nm es0 = Some (de, target).

(** What [prune] does with one entry of a directory; [prune] is the
    function for the entry's own object. *)
Definition prune_entry (config : Configuration) (prune : inode -> inode)
  (x : DirEntry * inode) : list (DirEntry * inode) :=
  if is_DT_DIR (d_type (fst x)) then
    if protected config (fst x) then [x]
    else
      let n' := prune (snd x) in
      if occupied n' then [(fst x, n')] else []
  else if protected config (fst x) then [x] else [].

(** [prune config n]: the tree the run is meant to leave of the directory
    [n]. An entry that is not a directory stays when it is [protected]; a
    hidden directory under [preserveHidden] stays as it is; any other
    directory is pruned in its turn, and stays when something is left in
    it. *)
Fixpoint prune (config : Configuration) (n : inode) : inode :=
  match n with
  | NonDir => NonDir
  | Dir r w es => Dir r w (flat_map (prune_entry config (prune config)) es)
  end.

(** [healthy n]: nothing stands in the walker's way in [n]. Every
    directory can be read and written, and [d_type] is [DT_DIR] for the
    directories and for nothing else. *)
Fixpoint healthy (n : inode) : bool :=
  match n with
  | NonDir => true
  | Dir r w es =>
      r && w
      && forallb
           (fun x => Bool.eqb (is_DT_DIR (d_type (fst x))) (is_dir (snd x))
                     && healthy (snd x))
           es
  end.

(** [unlink_lines config n path]: the removals a simulated walk of the
    directory [n] at [path] announces, in order: every entry that is not
    a directory and is not [protected], and every directory it goes into
    that holds nothing. *)
Fixpoint unlink_lines (config : Configuration) (n : inode) (path : string)
  : list string :=
  match n with
  | NonDir => []
  | Dir _ _ es =>
      flat_map
        (fun x =>
           let currentEntryPath := entry_path path (d_name (fst x)) in
           if protected config (fst x) then []
           else if is_DT_DIR (d_type (fst x)) then
             unlink_lines config (snd x) currentEntryPath
             ++ (if occupied (snd x) then [] else [msg_unlink currentEntryPath])
           else [msg_unlink currentEntryPath])
        es
  end.

(* ================================================================== *)
(** * What a run leaves behind *)

(** [sub_entries R es' es]: [es'] is [es] with entries left out; the
    entries that stay are in the order they were, with the [DirEntry] they
    had and objects related by [R]. *)
Inductive sub_entries (R : inode -> inode -> Prop)
  : list (DirEntry * inode) -> list (DirEntry * inode) -> Prop :=
| sub_entries_nil : sub_entries R [] []
| sub_entries_drop (x : DirEntry * inode) (es' es : list (DirEntry * inode)) :
    sub_entries R es' es -> sub_entries R es' (x :: es)
| sub_entries_keep (de : DirEntry) (n' n : inode) (es' es : list (DirEntry * inode)) :
    R n' n -> sub_entries R es' es -> sub_entries R ((de, n') :: es') ((de, n) :: es).

(** [sub_tree n' n]: [n'] is [n] with entries removed, at any depth. No
    entry is new, and none has another name, type or object kind; every
    directory has the permissions it had. *)
#[local] Unset Elimination Schemes.
Inductive sub_tree : inode -> inode -> Prop :=
| sub_tree_NonDir : sub_tree NonDir NonDir
| sub_tree_Dir (r w : bool) (es' es : list (DirEntry * inode)) :
    sub_entries sub_tree es' es -> sub_tree (Dir r w es') (Dir r w es).
#[local] Set Elimination Schemes.

(** [follows w w']: [w'] is a state of the run after [w]. The tree has
    lost entries at the most, the directory streams that are open are
    those that were, and the error stream has lines added at its end. *)
Definition follows (w w' : World) : Prop :=
  sub_tree (fs w') (fs w)
  /\ open_dirs w' = open_dirs w
  /\ exists lines, stderr w' = stderr w ++ lines.

(* ================================================================== *)
(** * The command line *)

(** The values of [Flag]: a flag with a short form has the code of its
    letter, the others follow [CHAR_MAX], that of a signed [char]. *)
Definition char_code (c : ascii) : Z := Z.of_nat (nat_of_ascii c).

Definition CHAR_MAX : Z := 127.

Definition HELP : Z := char_code "h".
Definition CLOBBER_EXT : Z := char_code "c".
Definition CLOBBER_NAME : Z := char_code "C".
Definition PRESERVE_HIDDEN : Z := char_code "H".
Definition PRESERVE_SPECIAL : Z := CHAR_MAX + 1.
Definition RUN_SIMULATE : Z := CHAR_MAX + 2.
Definition VERBOSE_LOGGING : Z := CHAR_MAX + 3.

(** The assignments of the switch. *)
Definition set_preserveHidden (config : Configuration) : Configuration :=
  {| verbose := verbose config;
     simulate := simulate config;
     preserveHidden := true;
     preserveSpecial := preserveSpecial config;
     clobberExtensions := clobberExtensions config;
     clobberNames := clobberNames config |}.

Definition set_preserveSpecial (config : Configuration) : Configuration :=
  {| verbose := verbose config;
     simulate := simulate config;
     preserveHidden := preserveHidden config;
     preserveSpecial := true;
     clobberExtensions := clobberExtensions config;
     clobberNames := clobberNames config |}.

Definition set_simulate (config : Configuration) : Configuration :=
  {| verbose := verbose config;
     simulate := true;
     preserveHidden := preserveHidden config;
     preserveSpecial := preserveSpecial config;
     clobberExtensions := clobberExtensions config;
     clobberNames := clobberNames config |}.

Definition set_verbose (config : Configuration) : Configuration :=
  {| verbose := true;
     simulate := simulate config;
     preserveHidden := preserveHidden config;
     preserveSpecial := preserveSpecial config;
     clobberExtensions := clobberExtensions config;
     clobberNames := clobberNames config |}.

(** The loop of [main] over the options. [options] holds what the calls
    of [getopt_long] return, one after the other: the value, and [optarg]
    after the call; the end of the list is the call that returns -1. The
    result is the configuration the loop leaves, or the status [main]
    returns from within the loop. What [getopt_long] writes itself is not
    in the error stream of the model. *)
Fixpoint main_options (imageName : string) (options : list (Z * option string))
  (runtimeConfig : Configuration) (w : World) : World * (Configuration + Z) :=
  match options with
  | [] => (w, inl runtimeConfig)
  | (optionOrd, optarg) :: rest =>
      if optionOrd =? -1 then (w, inl runtimeConfig)
      else if optionOrd =? HELP then
        (Runtime_printHelp imageName w, inr 0)
      else if optionOrd =? CLOBBER_EXT then
        match optarg with
        | Some extension =>
            main_options imageName rest
              (Configuration_clobberExtension runtimeConfig extension) w
        | None =>
            (Runtime_putError
               ("A parameter must be passed to --clobber-extension" +++ nl) w,
             inr EINVAL)
        end
      else if optionOrd =? CLOBBER_NAME then
        match optarg with
        | Some name =>
            main_options imageName rest (Configuration_clobberName runtimeConfig name) w
        | None =>
            (Runtime_putError
               ("A parameter must be passed to --clobber-name" +++ nl) w,
             inr EINVAL)
        end
      else if optionOrd =? PRESERVE_HIDDEN then
        main_options imageName rest (set_preserveHidden runtimeConfig) w
      else if optionOrd =? PRESERVE_SPECIAL then
        main_options imageName rest (set_preserveSpecial runtimeConfig) w
      else if optionOrd =? RUN_SIMULATE then
        main_options imageName rest (set_simulate runtimeConfig) w
      else if optionOrd =? VERBOSE_LOGGING then
        main_options imageName rest (set_verbose runtimeConfig) w
      else
        (Runtime_printHelp imageName (Runtime_putError nl w), inr EINVAL)
  end.

(** [main], from [argv]: [imageName] is [argv[0]], [options] is what
    [getopt_long] makes of the arguments, [files] are the arguments from
    [optind] on. *)
Definition main_argv (fuel : nat) (imageName : string)
  (options : list (Z * option string)) (files : list string) (w : World)
  : option (World * Z) :=
  match main_options imageName options Configuration_new w with
  | (w1, inr status) => Some (w1, status)
  | (w1, inl runtimeConfig) => main fuel imageName runtimeConfig files w1
  end.

(** An option the switch takes into the configuration: a flag, or a
    list option with its argument. *)
Definition sets (option : Z * option string) : bool :=
  let '(optionOrd, optarg) := option in
  match optarg with
  | Some _ => (optionOrd =? CLOBBER_EXT) || (optionOrd =? CLOBBER_NAME)
  | None => false
  end
  || (optionOrd =? PRESERVE_HIDDEN) || (optionOrd =? PRESERVE_SPECIAL)
  || (optionOrd =? RUN_SIMULATE) || (optionOrd =? VERBOSE_LOGGING).

(** What the switch does to the configuration for one such option. *)
Definition take_option (config : Configuration) (option : Z * option string)
  : Configuration :=
  let '(optionOrd, optarg) := option in
  if optionOrd =? CLOBBER_EXT then
    match optarg with
    | Some extension => Configuration_clobberExtension config extension
    | None => config
    end
  else if optionOrd =? CLOBBER_NAME then
    match optarg with
    | Some name => Configuration_clobberName config name
    | None => config
    end
  else if optionOrd =? PRESERVE_HIDDEN then set_preserveHidden config
  else if optionOrd =? PRESERVE_SPECIAL then set_preserveSpecial config
  else if optionOrd =? RUN_SIMULATE then set_simulate config
  else if optionOrd =? VERBOSE_LOGGING then set_verbose config
  else config.

(* ================================================================== *)
(** * The blocks the routines ask of the allocator *)

(** A store of [store_width] bytes at the byte [store_offset] of a block
    that was asked for with [block_size] bytes. *)
Record Store : Type := mkStore {
  block_size : Z;
  store_offset : Z;
  store_width : Z
}.

Definition in_bounds (s : Store) : bool :=
  (0 <=? store_offset s) && (store_offset s + store_width s <=? block_size s).

Definition strlen (s : string) : Z := Z.of_nat (String.length s).

(** [strcpy(malloc(strlen(s) * sizeof(char)), s)]: the characters of [s]
    and the null byte that ends it, stored from the start of the block. *)
Definition strcpy_to_malloc (s : string) : Store :=
  {| block_size := strlen s * 1;
     store_offset := 0;
     store_width := strlen s + 1 |}.

(** [array = realloc(array, len + 1); *(array + len) = ...]: a pointer
    stored in the cell [len] of the block, a pointer being [pointer_size]
    bytes wide. *)
Definition store_to_realloc (pointer_size len : Z) : Store :=
  {| block_size := len + 1;
     store_offset := len * pointer_size;
     store_width := pointer_size |}.

(** The stores of [Configuration_clobberExtension],
    [Configuration_clobberName] and [File_process] into the blocks they
    allocate. *)
Definition Configuration_clobberExtension_stores (pointer_size : Z)
  (config : Configuration) (extension : string) : list Store :=
  [ store_to_realloc pointer_size (Z.of_nat (List.length (clobberExtensions config)));
    strcpy_to_malloc extension ].

Definition Configuration_clobberName_stores (pointer_size : Z)
  (config : Configuration) (name : string) : list Store :=
  [ store_to_realloc pointer_size (Z.of_nat (List.length (clobberNames config)));
    strcpy_to_malloc name ].

Definition File_process_stores (path : string) : list Store :=
  [ strcpy_to_malloc path ].

(* ================================================================== *)
(** * Properties of the policy *)

Section Policy.

Local Open Scope string_scope.
Local Open Scope Z_scope.
Local Open Scope list_scope.

Lemma string_compare_refl (s : string) : String.compare s s = Eq.
Proof.
  pose proof (String.compare_antisym s s) as H.
  destruct (String.compare s s); simpl in H; congruence.
Qed.

Lemma strcmp_zero (s1 s2 : string) : (strcmp s1 s2 =? 0) = true <-> s1 = s2.
Proof.
  unfold strcmp. split.
  - intros H. apply String.compare_eq_iff.
    destruct (String.compare s1 s2); [reflexivity | discriminate | discriminate].
  - intros ->. now rewrite string_compare_refl.
Qed.

Lemma strcmp_refl (s : string) : (strcmp s s =? 0) = true.
Proof. now apply strcmp_zero. Qed.

Lemma linear_search_In (cells : list string) (key : string) :
  linear_search cells key = true <-> In key cells.
Proof.
  induction cells as [|cell rest IH]; simpl.
  - split; [discriminate | tauto].
  - destruct (strcmp key cell =? 0) eqn:E.
    + apply strcmp_zero in E. subst. tauto.
    + rewrite IH. split; [tauto|].
      intros [->|H]; [|exact H].
      rewrite strcmp_refl in E. discriminate.
Qed.

Lemma strrchr_absent (s : string) (c : ascii) :
  contains s c = false -> strrchr s c = None.
Proof.
  induction s as [|a r IH]; simpl; [reflexivity|].
  intros H. apply orb_false_iff in H as [Ha Hr].
  now rewrite (IH Hr), Ha.
Qed.

Lemma strrchr_last (x ext : string) (c : ascii) :
  contains ext c = false ->
  strrchr (x +++ String c ext) c = Some (String c ext).
Proof.
  intros H. induction x as [|a r IH]; simpl.
  - now rewrite (strrchr_absent _ _ H), Ascii.eqb_refl.
  - now rewrite IH.
Qed.

Lemma File_shouldClobber_no_dot (config : Configuration) (b : string) :
  contains b dot = false ->
  File_shouldClobber config b = Configuration_shouldClobberName config b.
Proof.
  intros H. unfold File_shouldClobber.
  rewrite (strrchr_absent _ _ H).
  now destruct (Configuration_shouldClobberName config b).
Qed.

Lemma File_shouldClobber_ext (config : Configuration) (x ext : string) :
  contains ext dot = false ->
  File_shouldClobber config (x +++ "." +++ ext)
  = Configuration_shouldClobberName config (x +++ "." +++ ext)
    || Configuration_shouldClobberExtension config ext.
Proof.
  intros H. unfold File_shouldClobber.
  change ("." +++ ext) with (String dot ext).
  rewrite (strrchr_last _ _ _ H). simpl.
  now destruct (Configuration_shouldClobberName config _).
Qed.

(** C2. A basename without ['.'] is clobbered exactly when it is one of
    [clobberNames]; a basename [x.ext], where [ext] follows the last ['.'],
    exactly when it is one of [clobberNames] or [ext] is one of
    [clobberExtensions]. Membership is equality of strings. *)
Theorem File_shouldClobber_spec (config : Configuration) :
  (forall b : string,
      contains b dot = false ->
      (File_shouldClobber config b = true <-> In b (clobberNames config)))
  /\ (forall x ext : string,
         contains ext dot = false ->
         (File_shouldClobber config (x +++ "." +++ ext) = true
          <-> In (x +++ "." +++ ext) (clobberNames config)
              \/ In ext (clobberExtensions config))).
Proof.
  split.
  - intros b H. rewrite (File_shouldClobber_no_dot _ _ H).
    apply linear_search_In.
  - intros x ext H. rewrite (File_shouldClobber_ext _ _ _ H).
    rewrite orb_true_iff.
    unfold Configuration_shouldClobberName, Configuration_shouldClobberExtension.
    now rewrite !linear_search_In.
Qed.

Lemma File_shouldClobber_spec_witness :
  (File_shouldClobber config_tmp_core "core" = true
   <-> In "core" (clobberNames config_tmp_core))
  /\ (File_shouldClobber config_tmp_core ("a.b" +++ "." +++ "tmp") = true
      <-> In ("a.b" +++ "." +++ "tmp") (clobberNames config_tmp_core)
          \/ In "tmp" (clobberExtensions config_tmp_core)).
Proof.
  destruct (File_shouldClobber_spec config_tmp_core) as [Hname Hext].
  split.
  - apply Hname. reflexivity.
  - apply Hext. reflexivity.
Defined.

(** Matching is case-sensitive, and an extension is no name. *)
Example File_shouldClobber_exact :
  File_shouldClobber config_tmp_core "a.TMP" = false
  /\ File_shouldClobber config_tmp_core "tmp" = false
  /\ File_shouldClobber config_tmp_core "a.tmp" = true
  /\ File_shouldClobber config_tmp_core "Core" = false.
Proof. repeat split. Qed.

Lemma strchrnul_zero (b : string) :
  strchrnul b dot = O <-> b = "" \/ exists r, b = String dot r.
Proof.
  destruct b as [|a r]; simpl.
  - split; [now left | reflexivity].
  - destruct (Ascii.eqb a dot) eqn:E.
    + apply Ascii.eqb_eq in E. subst a. split; [right; now exists r | reflexivity].
    + split; [discriminate|].
      intros [H|[r' H]]; [discriminate|].
      injection H as -> _. now rewrite Ascii.eqb_refl in E.
Qed.



End Policy.

(* ================================================================== *)
(** * Properties of the file system model *)

Section Paths.


Lemma split_slash_not_nil (s : string) : split_slash s <> [].
Proof.
  induction s as [|c r IH]; simpl; [discriminate|].
  destruct (Ascii.eqb c slash); [discriminate|].
  destruct (split_slash r); discriminate.
Qed.

Lemma split_slash_app (p n : string) :
  split_slash (p +++ String slash n) = split_slash p ++ split_slash n.
Proof.
  induction p as [|c r IH]; simpl.
  - reflexivity.
  - rewrite IH. destruct (Ascii.eqb c slash); [reflexivity|].
    pose proof (split_slash_not_nil r) as Hr.
    destruct (split_slash r) as [|h t]; [contradiction|reflexivity].
Qed.

Lemma split_slash_plain (n : string) :
  contains n slash = false -> split_slash n = [n].
Proof.
  induction n as [|c r IH]; simpl; [reflexivity|].
  intros H. apply orb_false_iff in H as [Hc Hr].
  now rewrite Hc, (IH Hr).
Qed.

Lemma valid_name_inv (nm : string) :
  valid_name nm = true ->
  (nm =? "")%string = false /\ (nm =? ".")%string = false
  /\ (nm =? "..")%string = false
  /\ contains nm slash = false.
Proof.
  unfold valid_name. intros H.
  repeat (apply andb_true_iff in H as [H ?]).
  repeat split; now apply negb_true_iff.
Qed.

Lemma path_step_name (walked : list string) (nm : string) :
  valid_name nm = true -> path_step walked nm = nm :: walked.
Proof.
  intros H. apply valid_name_inv in H as (H1 & H2 & H3 & _).
  unfold path_step. now rewrite H1, H2, H3.
Qed.

(** A child's path resolves to its directory's names and its own. *)
Lemma resolve_entry_path (path nm : string) :
  valid_name nm = true ->
  resolve (entry_path path nm) = resolve path ++ [nm].
Proof.
  intros H. unfold resolve, entry_path.
  change ("/" +++ nm) with (String slash nm).
  rewrite split_slash_app.
  rewrite (split_slash_plain nm) by (now apply valid_name_inv in H).
  rewrite fold_left_app. simpl.
  now rewrite (path_step_name _ _ H).
Qed.

Lemma split_last_snoc {A : Type} (l : list A) (x : A) :
  split_last (l ++ [x]) = Some (l, x).
Proof.
  unfold split_last. rewrite rev_app_distr. simpl. now rewrite rev_involutive.
Qed.

Lemma valid_name_not_dots (nm : string) :
  valid_name nm = true ->
  ((strcmp nm "." =? 0) || (strcmp nm ".." =? 0)) = false.
Proof.
  intros H. apply valid_name_inv in H as (_ & H2 & H3 & _).
  apply orb_false_iff. split.
  - destruct (strcmp nm "." =? 0) eqn:E; [|reflexivity].
    apply strcmp_zero in E. subst. discriminate.
  - destruct (strcmp nm ".." =? 0) eqn:E; [|reflexivity].
    apply strcmp_zero in E. subst. discriminate.
Qed.

End Paths.

Section Trees.


Lemma lookup_app (ns ms : list string) (t : inode) :
  lookup (ns ++ ms) t
  = match lookup ns t with
    | inl n => lookup ms n
    | inr e => inr e
    end.
Proof.
  revert t. induction ns as [|c cs IH]; intros t; simpl; [reflexivity|].
  destruct t as [|r w es]; [reflexivity|].
  destruct (find_entry c es) as [[de child]|]; [apply IH | reflexivity].
Qed.

Lemma update_entry_ext (nm : string) (f g : inode -> inode) es :
  (forall x, f x = g x) -> update_entry nm f es = update_entry nm g es.
Proof.
  intros H. induction es as [|e rest IH]; simpl; [reflexivity|].
  destruct (d_name (fst e) =? nm)%string; [now rewrite H | now rewrite IH].
Qed.

Lemma modify_ext (ns : list string) (f g : inode -> inode) (t : inode) :
  (forall x, f x = g x) -> modify ns f t = modify ns g t.
Proof.
  intros H. revert t. induction ns as [|c cs IH]; intros t; simpl; [apply H|].
  destruct t as [|r w es]; [reflexivity|].
  f_equal. apply update_entry_ext. apply IH.
Qed.

Lemma modify_app (ns ms : list string) (f : inode -> inode) (t : inode) :
  modify (ns ++ ms) f t = modify ns (modify ms f) t.
Proof.
  revert t. induction ns as [|c cs IH]; intros t; simpl; [reflexivity|].
  destruct t as [|r w es]; [reflexivity|].
  f_equal. apply update_entry_ext. apply IH.
Qed.

Lemma find_entry_update (nm : string) (f : inode -> inode) es :
  find_entry nm (update_entry nm f es)
  = match find_entry nm es with
    | Some (de, c) => Some (de, f c)
    | None => None
    end.
Proof.
  unfold find_entry. induction es as [|[de c] rest IH]; simpl; [reflexivity|].
  destruct (d_name de =? nm)%string eqn:E; simpl; rewrite E; [reflexivity | apply IH].
Qed.

Lemma update_entry_fixed (nm : string) (f : inode -> inode) es de c :
  find_entry nm es = Some (de, c) -> f c = c -> update_entry nm f es = es.
Proof.
  unfold find_entry. induction es as [|[de' c'] rest IH]; simpl; [discriminate|].
  destruct (d_name de' =? nm)%string eqn:E.
  - intros H Hf. injection H as -> ->. now rewrite Hf.
  - intros H Hf. now rewrite (IH H Hf).
Qed.

Lemma update_entry_update (nm : string) (f g : inode -> inode) es :
  update_entry nm f (update_entry nm g es) = update_entry nm (fun x => f (g x)) es.
Proof.
  induction es as [|[de c] rest IH]; simpl; [reflexivity|].
  destruct (d_name de =? nm)%string eqn:E; simpl; rewrite E; [reflexivity | now rewrite IH].
Qed.

Lemma remove_entry_update (nm : string) (f : inode -> inode) es :
  remove_entry nm (update_entry nm f es) = remove_entry nm es.
Proof.
  unfold remove_entry. induction es as [|[de c] rest IH]; simpl; [reflexivity|].
  destruct (d_name de =? nm)%string eqn:E; simpl; rewrite E; simpl; [reflexivity | now rewrite IH].
Qed.

Lemma lookup_modify (ns : list string) (f : inode -> inode) (t n : inode) :
  lookup ns t = inl n -> lookup ns (modify ns f t) = inl (f n).
Proof.
  revert t. induction ns as [|c cs IH]; intros t; simpl.
  - intros H. now injection H as ->.
  - destruct t as [|r w es]; [discriminate|].
    rewrite find_entry_update.
    destruct (find_entry c es) as [[de child]|]; [apply IH | discriminate].
Qed.

Lemma modify_modify (ns : list string) (f g : inode -> inode) (t : inode) :
  modify ns f (modify ns g t) = modify ns (fun x => f (g x)) t.
Proof.
  revert t. induction ns as [|c cs IH]; intros t; simpl; [reflexivity|].
  destruct t as [|r w es]; [reflexivity|].
  f_equal. rewrite update_entry_update. apply update_entry_ext. apply IH.
Qed.

Lemma modify_id (ns : list string) (t n : inode) :
  lookup ns t = inl n -> modify ns (fun _ => n) t = t.
Proof.
  revert t. induction ns as [|c cs IH]; intros t; simpl.
  - intros H. now injection H as ->.
  - destruct t as [|r w es]; [reflexivity|].
    destruct (find_entry c es) as [[de child]|] eqn:E; [|discriminate].
    intros H. f_equal.
    apply (update_entry_fixed _ _ _ _ _ E). now apply IH.
Qed.

End Trees.

Section Focus.

(** The system calls and the routines, applied to the path of an entry of
    the directory at [path]. *)

Variable config : Configuration.
Variable path : string.
Variables r wr : bool.
Variable nm : string.
Variable de : DirEntry.
Hypothesis Hnm : valid_name nm = true.

Let ns := resolve path.
Let cp := entry_path path nm.

Lemma touch_nil (e : Z) (w : World) : touch e [] w = with_errno e w.
Proof. unfold touch, with_errno. now rewrite app_nil_r. Qed.

Lemma touch_self (w : World) : touch (errno w) [] w = w.
Proof. destruct w. unfold touch. simpl. now rewrite app_nil_r. Qed.

Lemma put_same (n : inode) (e : Z) (d : list string) (w : World) :
  lookup ns (fs w) = inl n -> put ns n e d w = touch e d w.
Proof. intros H. unfold put, touch. now rewrite (modify_id _ _ _ H). Qed.

Lemma put_put (n1 n2 : inode) (e1 e2 : Z) (d1 d2 : list string) (w : World) :
  put ns n2 e2 d2 (put ns n1 e1 d1 w) = put ns n2 e2 (d1 ++ d2) w.
Proof.
  unfold put. simpl. rewrite modify_modify, app_assoc. reflexivity.
Qed.

Lemma lookup_put (n n' : inode) (e : Z) (d : list string) (w : World) :
  lookup ns (fs w) = inl n -> lookup ns (fs (put ns n' e d w)) = inl n'.
Proof. intros H. simpl. now rewrite (lookup_modify _ _ _ _ H). Qed.

Lemma set_entry_same live c :
  find_entry nm live = Some (de, c) -> set_entry nm (Some c) live = live.
Proof. intros H. simpl. now apply (update_entry_fixed _ _ _ _ _ H). Qed.

Lemma focused_child live c w :
  focused ns r wr live nm de c w -> lookup (resolve cp) (fs w) = inl c.
Proof.
  intros [Hp Hc]. unfold cp. rewrite (resolve_entry_path _ _ Hnm).
  fold ns. rewrite lookup_app, Hp. simpl. now rewrite Hc.
Qed.

(** A routine that leaves the entry's object [c'] keeps the focus. *)
Lemma focused_put live c c' e d w :
  focused ns r wr live nm de c w ->
  focused ns r wr (set_entry nm (Some c') live) nm de c'
    (put ns (Dir r wr (set_entry nm (Some c') live)) e d w).
Proof.
  intros [Hp Hc]. split.
  - now apply (lookup_put _ _ _ _ _ Hp).
  - simpl. now rewrite find_entry_update, Hc.
Qed.

Lemma set_entry_set_entry live c' res :
  set_entry nm res (set_entry nm (Some c') live) = set_entry nm res live.
Proof.
  destruct res as [c2|]; simpl.
  - now rewrite update_entry_update.
  - now rewrite remove_entry_update.
Qed.

(** The walk of the entry, seen from its directory. *)
Lemma put_child live c c' e d w :
  focused ns r wr live nm de c w ->
  put (resolve cp) c' e d w = put ns (Dir r wr (set_entry nm (Some c') live)) e d w.
Proof.
  intros [Hp Hc]. unfold cp. rewrite (resolve_entry_path _ _ Hnm). fold ns.
  unfold put. f_equal. rewrite modify_app.
  rewrite <- (modify_id ns (fs w) _ Hp) at 1.
  rewrite modify_modify. apply modify_ext. intros x. reflexivity.
Qed.

Lemma stat_focused live c w :
  focused ns r wr live nm de c w -> stat cp w = (w, 0, mode_of c).
Proof. intros H. unfold stat. now rewrite (focused_child _ _ _ H). Qed.

Lemma opendir_focused live c w :
  focused ns r wr live nm de c w ->
  opendir cp w
  = match opendir_node c with
    | inl dir => (with_open_dirs (S (open_dirs w)) w, Some dir)
    | inr e => (with_errno e w, None)
    end.
Proof. intros H. unfold opendir. now rewrite (focused_child _ _ _ H). Qed.

Lemma remove_under_focused check live c w :
  focused ns r wr live nm de c w ->
  remove_under check ns nm w
  = match check wr c with
    | Some e => (touch e [] w, -1)
    | None => (put ns (Dir r wr (remove_entry nm live)) (errno w) [] w, 0)
    end.
Proof.
  intros [Hp Hc]. unfold remove_under. rewrite Hp, Hc.
  destruct (check wr c) as [e|].
  - unfold fail. now rewrite touch_nil.
  - unfold put, with_fs. now rewrite app_nil_r.
Qed.

Lemma rmdir_focused live c w :
  focused ns r wr live nm de c w ->
  rmdir cp w
  = match rmdir_check wr c with
    | Some e => (touch e [] w, -1)
    | None => (put ns (Dir r wr (remove_entry nm live)) (errno w) [] w, 0)
    end.
Proof.
  intros H. unfold rmdir, cp. rewrite (resolve_entry_path _ _ Hnm), split_last_snoc.
  now apply remove_under_focused with (c := c).
Qed.

Lemma unlink_focused live c w :
  focused ns r wr live nm de c w ->
  unlink cp w
  = match unlink_check wr c with
    | Some e => (touch e [] w, -1)
    | None => (put ns (Dir r wr (remove_entry nm live)) (errno w) [] w, 0)
    end.
Proof.
  intros H. unfold unlink, cp. rewrite (resolve_entry_path _ _ Hnm), split_last_snoc.
  now apply remove_under_focused with (c := c).
Qed.

Lemma put_kept live c e d w :
  focused ns r wr live nm de c w ->
  put ns (Dir r wr (set_entry nm (Some c) live)) e d w = touch e d w.
Proof.
  intros [Hp Hc]. rewrite (set_entry_same _ _ Hc). now apply put_same.
Qed.

Lemma File_unlink_focused live c w :
  focused ns r wr live nm de c w ->
  File_unlink config cp w
  = let '(res, e', d, rc) := File_unlink_node config wr cp c (errno w) in
    (put ns (Dir r wr (set_entry nm res live)) e' d w, rc).
Proof.
  intros H. unfold File_unlink, File_unlink_node.
  destruct (simulate config).
  - rewrite (put_kept _ _ _ _ _ H). reflexivity.
  - rewrite (stat_focused _ _ _ H).
    destruct (S_ISDIR (mode_of c)).
    + rewrite (rmdir_focused _ _ _ H).
      destruct (rmdir_check wr c); [|reflexivity].
      now rewrite (put_kept _ _ _ _ _ H).
    + rewrite (unlink_focused _ _ _ H).
      destruct (unlink_check wr c); [|reflexivity].
      now rewrite (put_kept _ _ _ _ _ H).
Qed.

Lemma closedir_opened (w : World) :
  closedir (with_open_dirs (S (open_dirs w)) w) = touch (errno w) [] w.
Proof.
  unfold closedir, with_open_dirs, touch. simpl. now rewrite app_nil_r.
Qed.

Lemma Directory_isEmpty_focused live c w :
  focused ns r wr live nm de c w ->
  Directory_isEmpty cp w
  = let '(empty, e', d) := Directory_isEmpty_node cp c (errno w) in
    (touch e' d w, empty).
Proof.
  intros H. unfold Directory_isEmpty, Directory_isEmpty_node.
  rewrite (opendir_focused _ _ _ H).
  destruct (opendir_node c) as [dir|err].
  - destruct (Directory_isEmpty_loop dir 0) as [index rest]. simpl fst.
    now rewrite closedir_opened.
  - reflexivity.
Qed.

Lemma File_process_focused live c w :
  focused ns r wr live nm de c w ->
  File_process config cp w
  = let '(res, e', d, rv) := File_process_node config wr cp c (errno w) in
    (put ns (Dir r wr (set_entry nm res live)) e' d w, rv).
Proof.
  intros H. unfold File_process, File_process_node.
  destruct (File_shouldClobber config (basename cp)).
  - rewrite (File_unlink_focused _ _ _ H).
    destruct (File_unlink_node config wr cp c (errno w)) as [[[res e1] d1] rc].
    destruct (rc =? u32 (-1)); [|reflexivity].
    unfold Runtime_putError, put, with_stderr. simpl.
    now rewrite app_assoc.
  - now rewrite (put_kept _ _ _ _ _ H), touch_self.
Qed.

End Focus.

Section Entry.

(** One turn of the loop of [Directory_process], on the entry [nm] of the
    directory at [path]. *)

Variable config : Configuration.
Variable path : string.
Variables r wr : bool.
Variable nm : string.
Variable de : DirEntry.
Variable live : list (DirEntry * inode).
Variable w : World.
Hypothesis Hnm : valid_name nm = true.
Hypothesis Hde : d_name de = nm.

Local Abbreviation ns := (resolve path).
Local Abbreviation cp := (entry_path path nm).

Lemma touch_put (n : inode) (e e' : Z) (d d' : list string) :
  touch e' d' (put ns n e d w) = put ns n e' (d ++ d') w.
Proof. unfold touch, put. simpl. now rewrite app_assoc. Qed.

Lemma Runtime_putError_put (n : inode) (e : Z) (d : list string) (m : string) :
  Runtime_putError m (put ns n e d w) = put ns n e (d ++ [m]) w.
Proof. unfold Runtime_putError, with_stderr, put. simpl. now rewrite app_assoc. Qed.

Lemma Runtime_verbose_put (n : inode) (e : Z) (d : list string) (m : string) :
  Runtime_verbose config m (put ns n e d w) = put ns n e (d ++ verbose_lines config m) w.
Proof.
  unfold Runtime_verbose, verbose_lines. destruct (verbose config).
  - apply Runtime_putError_put.
  - now rewrite app_nil_r.
Qed.

Variable c : inode.
Hypothesis Hfocus : focused ns r wr live nm de c w.

(** The state while the routines work on the entry: its object is [c'],
    [errno] is [e] and the lines [d] have been written. *)
Let at_entry (c' : inode) (e : Z) (d : list string) : World :=
  put ns (Dir r wr (set_entry nm (Some c') live)) e d w.

Let after_entry (res : option inode) (e : Z) (d : list string) : World :=
  put ns (Dir r wr (set_entry nm res live)) e d w.

Lemma at_entry_start : w = at_entry c (errno w) [].
Proof.
  unfold at_entry. erewrite put_kept by exact Hfocus.
  symmetry. apply touch_self.
Qed.

Lemma at_entry_focused c' e d :
  focused ns r wr (set_entry nm (Some c') live) nm de c' (at_entry c' e d).
Proof. unfold at_entry. now apply focused_put with (c := c). Qed.

Lemma after_at_entry c' e d res e' d' :
  put ns (Dir r wr (set_entry nm res (set_entry nm (Some c') live))) e' d' (at_entry c' e d)
  = after_entry res e' (d ++ d').
Proof.
  unfold at_entry, after_entry. rewrite put_put. now rewrite set_entry_set_entry.
Qed.

Lemma Directory_isEmpty_at_entry c' e d :
  Directory_isEmpty cp (at_entry c' e d)
  = let '(empty, e', d') := Directory_isEmpty_node cp c' e in
    (at_entry c' e' (d ++ d'), empty).
Proof.
  erewrite Directory_isEmpty_focused; [| exact Hnm | apply at_entry_focused].
  simpl errno.
  destruct (Directory_isEmpty_node (entry_path path nm) c' e) as [[empty e'] d'].
  unfold at_entry. now rewrite touch_put.
Qed.

Lemma File_unlink_at_entry c' e d :
  File_unlink config cp (at_entry c' e d)
  = let '(res, e', d', rc) := File_unlink_node config wr cp c' e in
    (after_entry res e' (d ++ d'), rc).
Proof.
  erewrite File_unlink_focused; [| exact Hnm | apply at_entry_focused].
  simpl errno.
  destruct (File_unlink_node config wr (entry_path path nm) c' e) as [[[res e'] d'] rc].
  now rewrite after_at_entry.
Qed.

Lemma Directory_process_file_at_entry c' e d :
  Directory_process_file config cp (at_entry c' e d)
  = let '(res, e', d') := Directory_process_file_node config wr cp c' e in
    after_entry res e' (d ++ d').
Proof.
  unfold Directory_process_file, Directory_process_file_node.
  erewrite File_process_focused; [| exact Hnm | apply at_entry_focused].
  simpl errno.
  destruct (File_process_node config wr (entry_path path nm) c' e) as [[[res e'] d'] rv].
  rewrite after_at_entry.
  destruct (u32 rv =? ENONE); [reflexivity|].
  unfold after_entry. rewrite Runtime_verbose_put. now rewrite app_assoc.
Qed.

Variable rec : string -> World -> option (World * Z).
Variable walk : string -> Z -> inode * Z * list string * Z.
Hypothesis Hrec :
  rec cp w
  = let '(c1, e1, d1, rv) := walk cp (errno w) in
    Some (put (resolve cp) c1 e1 d1 w, rv).

Lemma Directory_process_entry_focused :
  Directory_process_entry rec config path de w
  = let '(res, e', d) := collapse_entry config wr path walk de c (errno w) in
    Some (after_entry res e' d).
Proof.
  unfold Directory_process_entry, collapse_entry.
  rewrite Hde. rewrite (valid_name_not_dots _ Hnm).
  assert (Hkeep : Some w = Some (after_entry (Some c) (errno w) [])).
  { f_equal. apply at_entry_start. }
  assert (Hfile :
    Some (Directory_process_file config cp w)
    = let '(res, e', d) := Directory_process_file_node config wr cp c (errno w) in
      Some (after_entry res e' d)).
  { rewrite at_entry_start at 1. rewrite Directory_process_file_at_entry.
    now destruct (Directory_process_file_node config wr cp c (errno w)) as [[res e'] d']. }
  destruct (d_type de); try exact Hkeep; try exact Hfile;
    try (destruct (preserveSpecial config); [exact Hkeep | exact Hfile]).
  destruct (preserveHidden config && File_isHidden nm); [exact Hkeep|].
  rewrite Hrec.
  destruct (walk cp (errno w)) as [[[c1 e1] d1] rv].
  erewrite put_child; [| exact Hnm | exact Hfocus].
  fold (at_entry c1 e1 d1).
  destruct (u32 rv =? ENONE).
  - rewrite Directory_isEmpty_at_entry.
    destruct (Directory_isEmpty_node cp c1 e1) as [[empty e2] d2].
    destruct empty.
    + rewrite File_unlink_at_entry.
      destruct (File_unlink_node config wr cp c1 e2) as [[[res e3] d3] rc].
      destruct (rc =? u32 (-1)).
      * unfold after_entry. rewrite Runtime_putError_put.
        now rewrite <- !app_assoc.
      * now rewrite <- !app_assoc.
    + unfold at_entry. rewrite Runtime_verbose_put. unfold after_entry.
      now rewrite <- !app_assoc.
  - unfold at_entry. rewrite Runtime_putError_put. reflexivity.
Qed.

End Entry.

Section Entries.

Lemma names_of_app (l1 l2 : list (DirEntry * inode)) :
  names_of (l1 ++ l2) = names_of l1 ++ names_of l2.
Proof. apply map_app. Qed.

Lemma find_entry_skip (nm : string) (l1 l2 : list (DirEntry * inode)) :
  ~ In nm (names_of l1) -> find_entry nm (l1 ++ l2) = find_entry nm l2.
Proof.
  unfold find_entry. induction l1 as [|[de c] rest IH]; simpl; [reflexivity|].
  intros H. destruct (d_name de =? nm)%string eqn:E.
  - apply String.eqb_eq in E. tauto.
  - apply IH. tauto.
Qed.

Lemma find_entry_here (de : DirEntry) (c : inode) (l : list (DirEntry * inode)) :
  find_entry (d_name de) ((de, c) :: l) = Some (de, c).
Proof. unfold find_entry. simpl. now rewrite String.eqb_refl. Qed.

Lemma update_entry_middle (f : inode -> inode) (de : DirEntry) (c : inode) l1 l2 :
  ~ In (d_name de) (names_of l1) ->
  update_entry (d_name de) f (l1 ++ (de, c) :: l2) = l1 ++ (de, f c) :: l2.
Proof.
  induction l1 as [|[de' c'] rest IH]; simpl.
  - now rewrite String.eqb_refl.
  - intros H. destruct (d_name de' =? d_name de)%string eqn:E.
    + apply String.eqb_eq in E. tauto.
    + rewrite IH; [reflexivity | tauto].
Qed.

Lemma remove_entry_absent (nm : string) (l : list (DirEntry * inode)) :
  ~ In nm (names_of l) -> remove_entry nm l = l.
Proof.
  unfold remove_entry. induction l as [|[de c] rest IH]; simpl; [reflexivity|].
  intros H. destruct (d_name de =? nm)%string eqn:E.
  - apply String.eqb_eq in E. tauto.
  - simpl. rewrite IH; [reflexivity | tauto].
Qed.

Lemma remove_entry_middle (de : DirEntry) (c : inode) l1 l2 :
  ~ In (d_name de) (names_of l1) -> ~ In (d_name de) (names_of l2) ->
  remove_entry (d_name de) (l1 ++ (de, c) :: l2) = l1 ++ l2.
Proof.
  intros H1 H2. unfold remove_entry. rewrite filter_app. simpl.
  rewrite String.eqb_refl. simpl.
  fold (remove_entry (d_name de) l1). fold (remove_entry (d_name de) l2).
  now rewrite !remove_entry_absent.
Qed.

Lemma NoDup_names_middle (de : DirEntry) (c : inode) l1 l2 :
  NoDup (names_of (l1 ++ (de, c) :: l2)) ->
  ~ In (d_name de) (names_of l1) /\ ~ In (d_name de) (names_of l2)
  /\ NoDup (names_of (l1 ++ l2)).
Proof.
  rewrite !names_of_app. simpl. intros H.
  pose proof (NoDup_remove_1 _ _ _ H) as H1.
  pose proof (NoDup_remove_2 _ _ _ H) as H2.
  rewrite in_app_iff in H2. tauto.
Qed.

Variable config : Configuration.
Variable path : string.
Variables r wr : bool.
Variable rec : string -> World -> option (World * Z).
Variable walk : inode -> string -> Z -> inode * Z * list string * Z.

Local Abbreviation ns := (resolve path).

(** The loop over the entries still to come, [todo], when the entries
    already dealt with have left [done]. *)
Lemma Directory_process_loop_focused (todo : list (DirEntry * inode)) :
  forall (done : list (DirEntry * inode)) (w : World),
    lookup ns (fs w) = inl (Dir r wr (done ++ todo)) ->
    NoDup (names_of (done ++ todo)) ->
    Forall (fun e => valid_name (d_name (fst e)) = true) todo ->
    (forall de c w',
        In (de, c) todo ->
        lookup (resolve (entry_path path (d_name de))) (fs w') = inl c ->
        rec (entry_path path (d_name de)) w'
        = let '(c1, e1, d1, rv) := walk c (entry_path path (d_name de)) (errno w') in
          Some (put (resolve (entry_path path (d_name de))) c1 e1 d1 w', rv)) ->
    Directory_process_loop rec config path (map fst todo) w
    = let '(todo', e', d) := collapse_entries config wr path walk todo (errno w) in
      Some (put ns (Dir r wr (done ++ todo')) e' d w).
Proof.
  induction todo as [|[de c] rest IH]; intros done w Hp Hnd Hval Hrec; simpl.
  - erewrite put_same by exact Hp. now rewrite touch_self.
  - apply NoDup_names_middle in Hnd as Hmid. destruct Hmid as (Hd1 & Hd2 & Hnd').
    inversion Hval as [|x l Hnm Hval']; subst. simpl in Hnm.
    assert (Hfocus : focused ns r wr (done ++ (de, c) :: rest) (d_name de) de c w).
    { split; [exact Hp|]. rewrite (find_entry_skip _ _ _ Hd1). apply find_entry_here. }
    erewrite Directory_process_entry_focused with (walk := walk c);
      [| exact Hnm | reflexivity | exact Hfocus |].
    2:{ apply Hrec; [now left|]. eapply focused_child; [exact Hnm | exact Hfocus]. }
    destruct (collapse_entry config wr path (walk c) de c (errno w)) as [[res e1] d1].
    destruct res as [c'|]; simpl set_entry.
    + rewrite (update_entry_middle _ _ _ _ _ Hd1).
      change (done ++ (de, c') :: rest) with (done ++ [(de, c')] ++ rest).
      rewrite app_assoc.
      rewrite (IH (done ++ [(de, c')])).
      * simpl errno.
        destruct (collapse_entries config wr path walk rest e1) as [[rest' e2] d2].
        rewrite put_put. now rewrite <- app_assoc.
      * erewrite lookup_put by exact Hp. reflexivity.
      * rewrite <- app_assoc. simpl.
        rewrite names_of_app in *. exact Hnd.
      * exact Hval'.
      * intros de0 c0 w' Hin. apply Hrec. now right.
    + rewrite (remove_entry_middle _ _ _ _ Hd1 Hd2).
      rewrite (IH done).
      * simpl errno.
        destruct (collapse_entries config wr path walk rest e1) as [[rest' e2] d2].
        now rewrite put_put.
      * erewrite lookup_put by exact Hp. reflexivity.
      * exact Hnd'.
      * exact Hval'.
      * intros de0 c0 w' Hin. apply Hrec. now right.
Qed.

End Entries.

Section Refinement.

Lemma distinct_NoDup (names : list string) :
  distinct names = true <-> NoDup names.
Proof.
  induction names as [|n rest IH]; simpl.
  - split; [constructor | reflexivity].
  - rewrite andb_true_iff, negb_true_iff, IH. split.
    + intros [Hn Hr]. constructor; [|exact Hr].
      intros Hin. assert (existsb (String.eqb n) rest = true) as E.
      { apply existsb_exists. exists n. split; [exact Hin | apply String.eqb_refl]. }
      congruence.
    + intros H. inversion H as [|x l Hn Hr]; subst. split; [|exact Hr].
      destruct (existsb (String.eqb n) rest) eqn:E; [|reflexivity].
      apply existsb_exists in E as [y [Hy Heq]].
      apply String.eqb_eq in Heq. subst y. contradiction.
Qed.

Lemma wf_inode_Dir (r wr : bool) (es : list (DirEntry * inode)) :
  wf_inode (Dir r wr es) = true <->
  NoDup (names_of es)
  /\ Forall (fun e => valid_name (d_name (fst e)) = true /\ wf_inode (snd e) = true) es.
Proof.
  simpl. rewrite andb_true_iff, distinct_NoDup, forallb_forall, Forall_forall.
  unfold names_of. split; intros [H1 H2]; (split; [exact H1|]); intros x Hx.
  - now apply andb_true_iff, H2.
  - now apply andb_true_iff, H2.
Qed.

Lemma height_pos (n : inode) : (1 <= height n)%nat.
Proof. destruct n; simpl; lia. Qed.

Lemma height_entry (r wr : bool) (es : list (DirEntry * inode)) (e : DirEntry * inode) :
  In e es -> (S (height (snd e)) <= height (Dir r wr es))%nat.
Proof.
  simpl. induction es as [|x rest IH]; simpl; [tauto|].
  intros [->|H]; [lia|]. specialize (IH H). lia.
Qed.

Lemma Directory_process_entry_dots rec config path (w : World) :
  Directory_process_entry rec config path dot_entry w = Some w
  /\ Directory_process_entry rec config path dotdot_entry w = Some w.
Proof. split; reflexivity. Qed.

Lemma collapse_node_Dir config (wr : bool) es path e :
  collapse_node config (Dir true wr es) path e
  = let '(es', e', d) := collapse_entries config wr path (collapse_node config) es e in
    (Dir true wr es', e', d, s32 (u32 ENONE)).
Proof. reflexivity. Qed.

(** [Directory_process] does to the state what [collapse_node] does to the
    object the path leads to, when [fuel] covers the object's height. *)
Theorem Directory_process_collapse (fuel : nat) (config : Configuration) :
  forall (path : string) (w : World) (n : inode),
    lookup (resolve path) (fs w) = inl n ->
    wf_inode n = true ->
    (height n <= fuel)%nat ->
    Directory_process fuel config path w
    = let '(n', e', d, rv) := collapse_node config n path (errno w) in
      Some (put (resolve path) n' e' d w, rv).
Proof.
  induction fuel as [|fuel IH]; intros path w n Hn Hwf Hh.
  - pose proof (height_pos n). lia.
  - simpl Directory_process. unfold opendir. rewrite Hn.
    destruct n as [|r wr es].
    + simpl. erewrite put_same by exact Hn. now rewrite touch_nil.
    + destruct r.
      2:{ simpl. erewrite put_same by exact Hn. now rewrite touch_nil. }
      cbn [opendir_node].
      cbn [Directory_process_loop].
      destruct (Directory_process_entry_dots (Directory_process fuel config) config path
                  (with_open_dirs (S (open_dirs w)) w)) as [-> ->].
      apply wf_inode_Dir in Hwf as [Hnd Hall].
      rewrite (Directory_process_loop_focused config path true wr
                 (Directory_process fuel config) (collapse_node config) es []).
      * rewrite collapse_node_Dir. simpl errno.
        destruct (collapse_entries config wr path (collapse_node config) es (errno w))
          as [[es' e'] d].
        reflexivity.
      * exact Hn.
      * exact Hnd.
      * eapply Forall_impl; [|exact Hall]. intros a [Ha _]. exact Ha.
      * intros de c w' Hin Hc. apply IH; [exact Hc | |].
        -- rewrite Forall_forall in Hall. now apply (Hall _ Hin).
        -- pose proof (height_entry true wr es _ Hin) as Hle. simpl snd in Hle. lia.
Qed.

End Refinement.

Section WellFormed.

Lemma find_entry_In (nm : string) es de c :
  find_entry nm es = Some (de, c) -> In (de, c) es /\ d_name de = nm.
Proof.
  unfold find_entry. intros H. apply find_some in H as [Hin Heq].
  simpl in Heq. apply String.eqb_eq in Heq. now split.
Qed.

Lemma wf_inode_entry (r wr : bool) es de c :
  wf_inode (Dir r wr es) = true -> In (de, c) es ->
  valid_name (d_name de) = true /\ wf_inode c = true.
Proof.
  intros H Hin. apply wf_inode_Dir in H as [_ Hall].
  rewrite Forall_forall in Hall. exact (Hall _ Hin).
Qed.

Lemma wf_lookup (ns : list string) (t n : inode) :
  wf_inode t = true -> lookup ns t = inl n -> wf_inode n = true.
Proof.
  revert t. induction ns as [|c cs IH]; intros t Hwf; simpl.
  - intros H. now injection H as <-.
  - destruct t as [|r wr es]; [discriminate|].
    destruct (find_entry c es) as [[de child]|] eqn:E; [|discriminate].
    apply IH. apply find_entry_In in E as [Hin _].
    now apply (wf_inode_entry _ _ _ _ _ Hwf Hin).
Qed.

Lemma names_of_update_entry (nm : string) (f : inode -> inode) es :
  names_of (update_entry nm f es) = names_of es.
Proof.
  induction es as [|[de c] rest IH]; simpl; [reflexivity|].
  destruct (d_name de =? nm)%string; simpl; [reflexivity | now rewrite IH].
Qed.

Lemma wf_update_entry (r wr : bool) (nm : string) (f : inode -> inode) es :
  (forall x, wf_inode x = true -> wf_inode (f x) = true) ->
  wf_inode (Dir r wr es) = true ->
  wf_inode (Dir r wr (update_entry nm f es)) = true.
Proof.
  intros Hf H. apply wf_inode_Dir in H as [Hnd Hall]. apply wf_inode_Dir.
  rewrite names_of_update_entry. split; [exact Hnd|].
  clear Hnd. induction Hall as [|[de c] rest [Hv Hc] Hall IH]; simpl; [constructor|].
  destruct (d_name de =? nm)%string.
  - constructor; [split; [exact Hv | now apply Hf] | exact Hall].
  - constructor; [now split | exact IH].
Qed.

Lemma wf_modify (ns : list string) (f : inode -> inode) (t : inode) :
  (forall x, wf_inode x = true -> wf_inode (f x) = true) ->
  wf_inode t = true -> wf_inode (modify ns f t) = true.
Proof.
  intros Hf. revert t. induction ns as [|c cs IH]; intros t Hwf; simpl.
  - now apply Hf.
  - destruct t as [|r wr es]; [reflexivity|].
    apply wf_update_entry; [|exact Hwf]. exact IH.
Qed.

Lemma names_of_remove_entry (nm : string) es :
  names_of (remove_entry nm es) = filter (fun s => negb (s =? nm)%string) (names_of es).
Proof.
  unfold remove_entry. induction es as [|[de c] rest IH]; simpl; [reflexivity|].
  destruct (d_name de =? nm)%string; simpl; now rewrite IH.
Qed.

Lemma wf_remove_entry (r wr : bool) (nm : string) es :
  wf_inode (Dir r wr es) = true -> wf_inode (Dir r wr (remove_entry nm es)) = true.
Proof.
  intros H. apply wf_inode_Dir in H as [Hnd Hall]. apply wf_inode_Dir. split.
  - rewrite names_of_remove_entry. now apply NoDup_filter.
  - rewrite Forall_forall in *. intros x Hx.
    apply filter_In in Hx as [Hx _]. now apply Hall.
Qed.

(** ** What a walk leaves of a directory *)

Lemma File_unlink_node_object config wr path target e res e' d rc :
  File_unlink_node config wr path target e = (res, e', d, rc) ->
  res = Some target \/ res = None.
Proof.
  unfold File_unlink_node. destruct (simulate config).
  - intros H. injection H as <- _ _ _. now left.
  - destruct (if S_ISDIR (mode_of target) then _ else _);
      intros H; injection H as <- _ _ _; [now left | now right].
Qed.

Lemma Directory_process_file_node_object config wr path target e res e' d :
  Directory_process_file_node config wr path target e = (res, e', d) ->
  res = Some target \/ res = None.
Proof.
  unfold Directory_process_file_node, File_process_node.
  destruct (File_shouldClobber config (basename path)).
  - destruct (File_unlink_node config wr path target e) as [[[res0 e0] d0] rc] eqn:E.
    apply File_unlink_node_object in E.
    destruct (rc =? u32 (-1)); destruct (u32 _ =? ENONE);
      intros H; injection H as <- _ _; exact E.
  - destruct (u32 ENONE =? ENONE); intros H; injection H as <- _ _; now left.
Qed.

Lemma collapse_entry_object config wr path walk de c e res e' d :
  collapse_entry config wr path walk de c e = (res, e', d) ->
  res = Some c \/ res = None
  \/ exists p e0, res = Some (fst (fst (fst (walk p e0)))).
Proof.
  unfold collapse_entry.
  destruct (_ || _).
  { intros H. injection H as <- _ _. now left. }
  assert (Hfile : Directory_process_file_node config wr (entry_path path (d_name de)) c e
                  = (res, e', d) ->
                  res = Some c \/ res = None
                  \/ exists p e0, res = Some (fst (fst (fst (walk p e0))))).
  { intros H. apply Directory_process_file_node_object in H. tauto. }
  assert (Hkeep : (Some c, e, @nil string) = (res, e', d) ->
                  res = Some c \/ res = None
                  \/ exists p e0, res = Some (fst (fst (fst (walk p e0))))).
  { intros H. injection H as <- _ _. now left. }
  destruct (d_type de); try exact Hkeep; try exact Hfile;
    try (destruct (preserveSpecial config); [exact Hkeep | exact Hfile]).
  destruct (preserveHidden config && File_isHidden (d_name de)); [exact Hkeep|].
  destruct (walk (entry_path path (d_name de)) e) as [[[c1 e1] d1] rv] eqn:Ew.
  assert (Hc1 : exists p e0, Some c1 = Some (fst (fst (fst (walk p e0))))).
  { exists (entry_path path (d_name de)), e. now rewrite Ew. }
  destruct (u32 rv =? ENONE).
  - destruct (Directory_isEmpty_node _ c1 e1) as [[empty e2] d2].
    destruct empty.
    + destruct (File_unlink_node config wr _ c1 e2) as [[[res0 e3] d3] rc] eqn:Eu.
      apply File_unlink_node_object in Eu.
      destruct (rc =? u32 (-1)); intros H; injection H as <- _ _;
        (destruct Eu as [-> | ->]; [right; right; exact Hc1 | right; now left]).
    + intros H. injection H as <- _ _. right; right; exact Hc1.
  - intros H. injection H as <- _ _. right; right; exact Hc1.
Qed.

Lemma collapse_entries_kept config wr path walk es e :
  let es' := fst (fst (collapse_entries config wr path walk es e)) in
  (forall de c, In (de, c) es -> forall p e0, wf_inode c = true ->
                wf_inode (fst (fst (fst (walk c p e0)))) = true) ->
  (forall nm, In nm (names_of es') -> In nm (names_of es))
  /\ (NoDup (names_of es) -> NoDup (names_of es'))
  /\ (Forall (fun x => valid_name (d_name (fst x)) = true /\ wf_inode (snd x) = true) es ->
      Forall (fun x => valid_name (d_name (fst x)) = true /\ wf_inode (snd x) = true) es').
Proof.
  revert e. induction es as [|[de c] rest IH]; intros e; simpl.
  - intros _. repeat split; auto.
  - intros Hwalk.
    destruct (collapse_entry config wr path (walk c) de c e) as [[res e1] d1] eqn:Ee.
    specialize (IH e1).
    destruct (collapse_entries config wr path walk rest e1) as [[rest' e2] d2].
    simpl in IH.
    destruct IH as (IHin & IHnd & IHall).
    { intros de0 c0 Hin. apply (Hwalk de0 c0). now right. }
    apply collapse_entry_object in Ee.
    assert (Hres : forall c', res = Some c' -> wf_inode c = true -> wf_inode c' = true).
    { intros c' -> Hc. destruct Ee as [E | [E | (p & e0 & E)]].
      - now injection E as ->.
      - discriminate.
      - injection E as ->. apply (Hwalk de c); [now left | exact Hc]. }
    destruct res as [c'|]; simpl.
    + repeat split.
      * intros nm [->|H]; [now left | right; now apply IHin].
      * intros H. inversion H as [|x l Hn Hr]; subst.
        constructor; [|now apply IHnd]. intros Hin. apply Hn. now apply IHin.
      * intros H. inversion H as [|x l [Hv Hc] Hr]; subst. simpl in *.
        constructor; [split; [exact Hv | now apply Hres] | now apply IHall].
    + repeat split.
      * intros nm H. right. now apply IHin.
      * intros H. inversion H; subst. now apply IHnd.
      * intros H. inversion H; subst. now apply IHall.
Qed.

Lemma collapse_node_wf config (n : inode) :
  forall path e, wf_inode n = true ->
                 wf_inode (fst (fst (fst (collapse_node config n path e)))) = true.
Proof.
  induction n as [|r wr es IH] using inode_ind; intros path e Hwf.
  - exact Hwf.
  - destruct r; [|exact Hwf].
    rewrite collapse_node_Dir.
    pose proof (collapse_entries_kept config wr path (collapse_node config) es e) as Hk.
    destruct (collapse_entries config wr path (collapse_node config) es e) as [[es' e'] d].
    cbn [fst] in Hk |- *.
    destruct Hk as (_ & Hnd & Hall).
    { intros de c Hin p e0. rewrite Forall_forall in IH. exact (IH _ Hin p e0). }
    apply wf_inode_Dir in Hwf as [H1 H2].
    apply wf_inode_Dir. split; [now apply Hnd | now apply Hall].
Qed.

End WellFormed.

Section Termination.

Lemma remove_under_wf check parent name (w : World) :
  wf_inode (fs w) = true ->
  wf_inode (fs (fst (remove_under check parent name w))) = true.
Proof.
  intros Hwf. unfold remove_under.
  destruct (lookup parent (fs w)) as [[|r wr es]|e] eqn:E; try exact Hwf.
  destruct (find_entry name es) as [[de target]|]; [|exact Hwf].
  destruct (check wr target); [exact Hwf|].
  simpl. apply wf_modify; [|exact Hwf].
  intros _ _. apply wf_remove_entry. exact (wf_lookup _ _ _ Hwf E).
Qed.

Lemma stat_fs path (w : World) : fs (fst (fst (stat path w))) = fs w.
Proof. unfold stat. now destruct (lookup (resolve path) (fs w)). Qed.

Lemma stat_at path (w : World) (n : inode) :
  lookup (resolve path) (fs w) = inl n -> stat path w = (w, 0, mode_of n).
Proof. intros H. unfold stat. now rewrite H. Qed.

Lemma File_unlink_wf config path (w : World) :
  wf_inode (fs w) = true -> wf_inode (fs (fst (File_unlink config path w))) = true.
Proof.
  intros Hwf. unfold File_unlink. destruct (simulate config); [exact Hwf|].
  pose proof (stat_fs path w) as Hs.
  destruct (stat path w) as [[w1 rc] mode]. simpl in Hs.
  rewrite <- Hs in Hwf.
  destruct (S_ISDIR mode).
  - unfold rmdir. destruct (split_last (resolve path)) as [[parent name]|]; [|exact Hwf].
    pose proof (remove_under_wf rmdir_check parent name w1 Hwf) as H.
    now destruct (remove_under rmdir_check parent name w1).
  - unfold unlink. destruct (split_last (resolve path)) as [[parent name]|]; [|exact Hwf].
    pose proof (remove_under_wf unlink_check parent name w1 Hwf) as H.
    now destruct (remove_under unlink_check parent name w1).
Qed.

Lemma File_process_wf config path (w : World) :
  wf_inode (fs w) = true -> wf_inode (fs (fst (File_process config path w))) = true.
Proof.
  intros Hwf. unfold File_process.
  destruct (File_shouldClobber config (basename path)); [|exact Hwf].
  pose proof (File_unlink_wf config path w Hwf) as H.
  destruct (File_unlink config path w) as [w1 r].
  now destruct (r =? u32 (-1)).
Qed.

Lemma Directory_isEmpty_fs path (w : World) :
  fs (fst (Directory_isEmpty path w)) = fs w.
Proof.
  unfold Directory_isEmpty, opendir.
  destruct (lookup (resolve path) (fs w)) as [n|e]; [|reflexivity].
  destruct (opendir_node n) as [dir|e]; [|reflexivity].
  now destruct (Directory_isEmpty_loop dir 0).
Qed.

Lemma Directory_process_unresolved (fuel : nat) config path (w : World) (e : Z) :
  lookup (resolve path) (fs w) = inr e ->
  Directory_process (S fuel) config path w = Some (with_errno e w, s32 (u32 e)).
Proof. intros H. simpl. unfold opendir. now rewrite H. Qed.

(** With enough fuel [Directory_process] returns, and the result does not
    depend on the fuel. *)
Lemma Directory_process_total config path (w : World) :
  wf_inode (fs w) = true ->
  exists fuel0 w' rv,
    (forall fuel, (fuel0 <= fuel)%nat ->
                  Directory_process fuel config path w = Some (w', rv))
    /\ wf_inode (fs w') = true.
Proof.
  intros Hwf.
  destruct (lookup (resolve path) (fs w)) as [n|e] eqn:E.
  - pose proof (wf_lookup _ _ _ Hwf E) as Hn.
    pose proof (collapse_node_wf config n path (errno w) Hn) as Hn'.
    destruct (collapse_node config n path (errno w)) as [[[n' e'] d] rv] eqn:Ec.
    exists (height n), (put (resolve path) n' e' d w), rv. split.
    + intros fuel Hf.
      rewrite (Directory_process_collapse fuel config path w n E Hn Hf).
      now rewrite Ec.
    + simpl. apply wf_modify; [|exact Hwf]. intros _ _. exact Hn'.
  - exists 1%nat, (with_errno e w), (s32 (u32 e)). split; [|exact Hwf].
    intros [|fuel] Hf; [lia|]. now apply Directory_process_unresolved.
Qed.

Lemma Runtime_verbose_fs config m (w : World) : fs (Runtime_verbose config m w) = fs w.
Proof. unfold Runtime_verbose. now destruct (verbose config). Qed.

Lemma main_file_total config fileName dirty (w : World) :
  wf_inode (fs w) = true ->
  exists fuel0 w' dirty',
    (forall fuel, (fuel0 <= fuel)%nat ->
                  main_file fuel config fileName dirty w = Some (w', dirty'))
    /\ wf_inode (fs w') = true.
Proof.
  intros Hwf. unfold main_file.
  pose proof (stat_fs fileName w) as Hs.
  destruct (stat fileName w) as [[w1 rc] mode]. simpl in Hs.
  rewrite <- Hs in Hwf.
  destruct (S_ISDIR mode).
  - set (w2 := Runtime_verbose config _ w1).
    assert (Hwf2 : wf_inode (fs w2) = true).
    { unfold w2. now rewrite Runtime_verbose_fs. }
    destruct (Directory_process_total config fileName w2 Hwf2)
      as (fuel0 & w3 & rv & Hrun & Hwf3).
    pose proof (Directory_isEmpty_fs fileName w3) as He.
    destruct (Directory_isEmpty fileName w3) as [w4 empty] eqn:E4.
    exists fuel0, w4, (if empty then dirty else true). split.
    + intros fuel Hf. rewrite (Hrun fuel Hf). now rewrite E4.
    + simpl in He. now rewrite He.
  - set (w2 := Runtime_verbose config _ w1).
    assert (Hwf2 : wf_inode (fs w2) = true).
    { unfold w2. now rewrite Runtime_verbose_fs. }
    pose proof (File_process_wf config fileName w2 Hwf2) as Hp.
    destruct (File_process config fileName w2) as [w3 r].
    exists 0%nat, w3, dirty. split; [reflexivity | exact Hp].
Qed.

Lemma main_loop_total config (files : list string) :
  forall dirty (w : World),
    wf_inode (fs w) = true ->
    exists fuel0 w' dirty',
      (forall fuel, (fuel0 <= fuel)%nat ->
                    main_loop fuel config files dirty w = Some (w', dirty'))
      /\ wf_inode (fs w') = true.
Proof.
  induction files as [|f rest IH]; intros dirty w Hwf.
  - exists 0%nat, w, dirty. split; [reflexivity | exact Hwf].
  - destruct (main_file_total config f dirty w Hwf) as (f1 & w1 & d1 & H1 & Hwf1).
    destruct (IH d1 w1 Hwf1) as (f2 & w2 & d2 & H2 & Hwf2).
    exists (Nat.max f1 f2), w2, d2. split; [|exact Hwf2].
    intros fuel Hf. simpl. rewrite H1 by lia. apply H2. lia.
Qed.

(** With enough fuel [main] returns an exit status. *)
Lemma main_total imageName config files (w : World) :
  wf_inode (fs w) = true ->
  exists fuel0 w' rc,
    forall fuel, (fuel0 <= fuel)%nat ->
                 main fuel imageName config files w = Some (w', rc).
Proof.
  intros Hwf. destruct files as [|f rest].
  - exists 0%nat, (Runtime_printHelp imageName w), ENONE. reflexivity.
  - destruct (main_loop_total config (f :: rest) false w Hwf) as (f0 & w' & d & H & _).
    exists f0, w', (if d then ENOTEMPTY else ENONE).
    intros fuel Hf. unfold main. now rewrite (H fuel Hf).
Qed.

End Termination.

(* ================================================================== *)
(** * The emptiness check *)

Section Emptiness.

Lemma Directory_isEmpty_loop_count (dir : Directory) :
  Directory_isEmpty_loop dir 0
  = (Z.of_nat (Nat.min (List.length dir) 3), skipn 3 dir).
Proof.
  destruct dir as [|a [|b [|c rest]]]; try reflexivity.
  simpl List.length. replace (Nat.min (S (S (S (List.length rest)))) 3) with 3%nat by lia.
  reflexivity.
Qed.

Lemma Directory_isEmpty_loop_verdict (dir : Directory) :
  (fst (Directory_isEmpty_loop dir 0) <=? 2) = (List.length dir <=? 2)%nat.
Proof.
  rewrite Directory_isEmpty_loop_count. simpl fst.
  destruct (Nat.leb_spec (List.length dir) 2); [apply Z.leb_le | apply Z.leb_gt]; lia.
Qed.

Lemma opendir_open_dirs path (w w1 : World) dir :
  opendir path w = (w1, Some dir) ->
  w1 = with_open_dirs (S (open_dirs w)) w
  /\ exists n, lookup (resolve path) (fs w) = inl n /\ opendir_node n = inl dir.
Proof.
  unfold opendir. destruct (lookup (resolve path) (fs w)) as [n|e]; [|discriminate].
  destruct (opendir_node n) as [dir'|e] eqn:E; [|discriminate].
  intros H. injection H as <- <-. split; [reflexivity|]. now exists n.
Qed.

Lemma Directory_isEmpty_opened path (w w1 : World) (dir : Directory) :
  opendir path w = (w1, Some dir) ->
  Directory_isEmpty path w = (closedir w1, (List.length dir <=? 2)%nat).
Proof.
  intros Ho. unfold Directory_isEmpty. rewrite Ho.
  pose proof (Directory_isEmpty_loop_verdict dir) as Hv.
  destruct (Directory_isEmpty_loop dir 0) as [index rest]. simpl in Hv.
  now rewrite Hv.
Qed.

Lemma opendir_entries path (w w1 : World) (dir : Directory) r wr es :
  opendir path w = (w1, Some dir) ->
  lookup (resolve path) (fs w) = inl (Dir r wr es) ->
  r = true /\ dir = dot_entry :: dotdot_entry :: map fst es.
Proof.
  intros Ho Hn. apply opendir_open_dirs in Ho as [_ (n & Hn' & Hdir)].
  rewrite Hn in Hn'. injection Hn' as <-.
  simpl in Hdir. destruct r; [|discriminate]. now injection Hdir as <-.
Qed.

Lemma two_entries_iff (es : list (DirEntry * inode)) :
  (List.length (dot_entry :: dotdot_entry :: map fst es) <=? 2)%nat = true <-> es = [].
Proof.
  destruct es as [|x rest]; simpl; split; try reflexivity; discriminate.
Qed.


End Emptiness.


(* ================================================================== *)
(** * Removal of one path *)

Section Removal.

Lemma S_ISDIR_mode_of (n : inode) : S_ISDIR (mode_of n) = is_dir n.
Proof. destruct n as [|[] [] es]; reflexivity. Qed.

Lemma lookup_error (ns : list string) (t : inode) (e : Z) :
  lookup ns t = inr e -> e = ENOENT \/ e = ENOTDIR.
Proof.
  revert t. induction ns as [|c cs IH]; intros t; simpl; [discriminate|].
  destruct t as [|r wr es].
  - intros H. injection H as <-. now right.
  - destruct (find_entry c es) as [[de child]|]; [apply IH|].
    intros H. injection H as <-. now left.
Qed.

Lemma remove_under_result check parent name (w : World) :
  (forall wr target e, check wr target = Some e -> In e error_numbers) ->
  let '(w', r) := remove_under check parent name w in
  (r = 0 /\ errno w' = errno w) \/ (r = -1 /\ In (errno w') error_numbers).
Proof.
  intros Hcheck. unfold remove_under.
  destruct (lookup parent (fs w)) as [[|rd wr es]|e] eqn:E.
  - right. split; [reflexivity|]. simpl. tauto.
  - destruct (find_entry name es) as [[de target]|].
    + destruct (check wr target) as [e|] eqn:Ec.
      * right. split; [reflexivity|]. exact (Hcheck _ _ _ Ec).
      * left. now split.
    + right. split; [reflexivity|]. simpl. tauto.
  - right. split; [reflexivity|]. simpl.
    apply lookup_error in E as [->| ->]; tauto.
Qed.

Lemma rmdir_result path (w : World) :
  let '(w', r) := rmdir path w in
  (r = 0 /\ errno w' = errno w) \/ (r = -1 /\ In (errno w') error_numbers).
Proof.
  unfold rmdir. destruct (split_last (resolve path)) as [[parent name]|].
  - apply remove_under_result. intros wr target e. unfold rmdir_check.
    destruct wr; simpl; [|intros H; injection H as <-; simpl; tauto].
    destruct target as [|rd wd [|x es]]; intros H; try discriminate;
      injection H as <-; simpl; tauto.
  - right. split; [reflexivity|]. simpl. tauto.
Qed.

Lemma unlink_result path (w : World) :
  let '(w', r) := unlink path w in
  (r = 0 /\ errno w' = errno w) \/ (r = -1 /\ In (errno w') error_numbers).
Proof.
  unfold unlink. destruct (split_last (resolve path)) as [[parent name]|].
  - apply remove_under_result. intros wr target e. unfold unlink_check.
    destruct wr; simpl; [|intros H; injection H as <-; simpl; tauto].
    destruct (is_dir target); intros H; try discriminate;
      injection H as <-; simpl; tauto.
  - right. split; [reflexivity|]. simpl. tauto.
Qed.

(** C4, as the code has it. Without [simulate], [File_unlink] calls [stat]
    and then [rmdir] when the mode read is a directory's and [unlink]
    otherwise; it returns 0 on success, and on failure 4294967295 (the -1
    of the system call as [u32]) with the error number left in [errno]. *)
Theorem File_unlink_spec (config : Configuration) (path : string) (w : World) :
  simulate config = false ->
  let w1 := fst (fst (stat path w)) in
  let mode := snd (stat path w) in
  let w' := fst (File_unlink config path w) in
  let r := snd (File_unlink config path w) in
  (forall n, lookup (resolve path) (fs w) = inl n -> S_ISDIR mode = is_dir n)
  /\ (S_ISDIR mode = true -> w' = fst (rmdir path w1) /\ r = u32 (snd (rmdir path w1)))
  /\ (S_ISDIR mode = false -> w' = fst (unlink path w1) /\ r = u32 (snd (unlink path w1)))
  /\ ((r = 0 /\ errno w' = errno w1)
      \/ (r = 4294967295 /\ In (errno w') error_numbers)).
Proof.
  intros Hsim. unfold File_unlink. rewrite Hsim.
  destruct (stat path w) as [[w1 rc] mode] eqn:Es. cbn [fst snd].
  split; [|split; [|split]].
  - intros n Hn. unfold stat in Es. rewrite Hn in Es. injection Es as _ _ <-.
    apply S_ISDIR_mode_of.
  - intros ->. now destruct (rmdir path w1).
  - intros ->. now destruct (unlink path w1).
  - destruct (S_ISDIR mode).
    + pose proof (rmdir_result path w1) as H. destruct (rmdir path w1) as [w2 r].
      cbn [fst snd]. destruct H as [[-> He]|[-> He]]; [left | right]; now split.
    + pose proof (unlink_result path w1) as H. destruct (unlink path w1) as [w2 r].
      cbn [fst snd]. destruct H as [[-> He]|[-> He]]; [left | right]; now split.
Qed.

Lemma File_unlink_spec_witness :
  (S_ISDIR (snd (stat "empty" (fresh_process example_tree 0))) = true ->
   fst (File_unlink Configuration_new "empty" (fresh_process example_tree 0))
   = fst (rmdir "empty" (fst (fst (stat "empty" (fresh_process example_tree 0)))))
   /\ snd (File_unlink Configuration_new "empty" (fresh_process example_tree 0))
      = u32 (snd (rmdir "empty" (fst (fst (stat "empty" (fresh_process example_tree 0)))))))
  /\ S_ISDIR (snd (stat "empty" (fresh_process example_tree 0))) = true.
Proof.
  split; [|reflexivity].
  exact (proj1 (proj2 (File_unlink_spec Configuration_new "empty"
                         (fresh_process example_tree 0) eq_refl))).
Defined.

(** C4, as stated, fails: in a directory that cannot be written the
    removal of [ro/a.tmp] fails with [EACCES], and [File_unlink] returns
    4294967295, which is not that error number; the number is in [errno]. *)
Lemma File_unlink_returns_minus_one :
  snd (File_unlink Configuration_new "ro/a.tmp" (fresh_process example_tree 0))
  = 4294967295
  /\ errno (fst (File_unlink Configuration_new "ro/a.tmp" (fresh_process example_tree 0)))
     = EACCES
  /\ snd (File_unlink Configuration_new "ro/a.tmp" (fresh_process example_tree 0))
     <> EACCES.
Proof. repeat split. discriminate. Qed.

End Removal.

(* ================================================================== *)
(** * Simulation *)

Section Simulation.

Variable config : Configuration.
Hypothesis Hsim : simulate config = true.

Lemma File_unlink_simulated path (w : World) :
  File_unlink config path w = (Runtime_putError (msg_unlink path) w, 0).
Proof. unfold File_unlink. now rewrite Hsim. Qed.

Lemma File_process_simulated path (w : World) :
  fs (fst (File_process config path w)) = fs w.
Proof.
  unfold File_process. destruct (File_shouldClobber config (basename path)); [|reflexivity].
  now rewrite File_unlink_simulated.
Qed.

Lemma Directory_process_file_simulated path (w : World) :
  fs (Directory_process_file config path w) = fs w.
Proof.
  unfold Directory_process_file.
  pose proof (File_process_simulated path w) as H.
  destruct (File_process config path w) as [w1 r]. simpl in H.
  destruct (u32 r =? ENONE); [exact H|]. now rewrite Runtime_verbose_fs.
Qed.

Lemma Directory_process_entry_simulated rec path de (w w' : World) :
  (forall p v v' rv, rec p v = Some (v', rv) -> fs v' = fs v) ->
  Directory_process_entry rec config path de w = Some w' -> fs w' = fs w.
Proof.
  intros Hrec. unfold Directory_process_entry.
  destruct (_ || _); [congruence|].
  assert (Hfile : Some (Directory_process_file config (entry_path path (d_name de)) w)
                  = Some w' -> fs w' = fs w).
  { intros H. injection H as <-. apply Directory_process_file_simulated. }
  destruct (d_type de); try congruence; try exact Hfile;
    try (destruct (preserveSpecial config); [congruence | exact Hfile]).
  destruct (preserveHidden config && File_isHidden (d_name de)); [congruence|].
  destruct (rec (entry_path path (d_name de)) w) as [[w1 rv]|] eqn:Er; [|discriminate].
  apply Hrec in Er.
  destruct (u32 rv =? ENONE).
  - pose proof (Directory_isEmpty_fs (entry_path path (d_name de)) w1) as He.
    destruct (Directory_isEmpty (entry_path path (d_name de)) w1) as [w2 empty].
    simpl in He. destruct empty.
    + rewrite File_unlink_simulated. simpl.
      intros H. injection H as <-. simpl. congruence.
    + intros H. injection H as <-. rewrite Runtime_verbose_fs. congruence.
  - intros H. injection H as <-. simpl. exact Er.
Qed.

Lemma Directory_process_loop_simulated rec path (dir : Directory) :
  (forall p v v' rv, rec p v = Some (v', rv) -> fs v' = fs v) ->
  forall (w w' : World),
    Directory_process_loop rec config path dir w = Some w' -> fs w' = fs w.
Proof.
  intros Hrec. induction dir as [|de rest IH]; intros w w'; simpl.
  - congruence.
  - destruct (Directory_process_entry rec config path de w) as [w1|] eqn:E; [|discriminate].
    intros H. rewrite (IH _ _ H).
    exact (Directory_process_entry_simulated _ _ _ _ _ Hrec E).
Qed.

Lemma opendir_fs path (w : World) : fs (fst (opendir path w)) = fs w.
Proof.
  unfold opendir. destruct (lookup (resolve path) (fs w)) as [n|e]; [|reflexivity].
  now destruct (opendir_node n).
Qed.

Lemma Directory_process_simulated (fuel : nat) :
  forall path (w w' : World) rv,
    Directory_process fuel config path w = Some (w', rv) -> fs w' = fs w.
Proof.
  induction fuel as [|fuel IH]; intros path w w' rv; simpl; [discriminate|].
  pose proof (opendir_fs path w) as Ho.
  destruct (opendir path w) as [w1 [dir|]]; simpl in Ho.
  - destruct (Directory_process_loop _ config path dir w1) as [w2|] eqn:El; [|discriminate].
    intros H. injection H as <- _. simpl.
    rewrite (Directory_process_loop_simulated _ _ _ IH _ _ El). exact Ho.
  - intros H. injection H as <- _. exact Ho.
Qed.

Lemma main_file_simulated fuel fileName dirty (w w' : World) dirty' :
  main_file fuel config fileName dirty w = Some (w', dirty') -> fs w' = fs w.
Proof.
  unfold main_file. pose proof (stat_fs fileName w) as Hs.
  destruct (stat fileName w) as [[w1 rc] mode]. simpl in Hs.
  destruct (S_ISDIR mode).
  - destruct (Directory_process fuel config fileName _) as [[w3 rv]|] eqn:Ed; [|discriminate].
    apply Directory_process_simulated in Ed. rewrite Runtime_verbose_fs in Ed.
    pose proof (Directory_isEmpty_fs fileName w3) as He.
    destruct (Directory_isEmpty fileName w3) as [w4 empty]. simpl in He.
    intros H. injection H as <- _. congruence.
  - pose proof (File_process_simulated fileName
                  (Runtime_verbose config ("Processing node " +++ fileName +++ nl) w1)) as Hp.
    destruct (File_process config fileName _) as [w3 r]. simpl in Hp.
    intros H. injection H as <- _. rewrite Hp, Runtime_verbose_fs. exact Hs.
Qed.

Lemma main_loop_simulated fuel (files : list string) :
  forall dirty (w w' : World) dirty',
    main_loop fuel config files dirty w = Some (w', dirty') -> fs w' = fs w.
Proof.
  induction files as [|f rest IH]; intros dirty w w' dirty'; simpl.
  - congruence.
  - destruct (main_file fuel config f dirty w) as [[w1 d1]|] eqn:E; [|discriminate].
    intros H. rewrite (IH _ _ _ _ H). exact (main_file_simulated _ _ _ _ _ _ E).
Qed.

Lemma main_simulated fuel imageName files (w w' : World) rc :
  main fuel imageName config files w = Some (w', rc) -> fs w' = fs w.
Proof.
  unfold main. destruct files as [|f rest].
  - intros H. now injection H as <- _.
  - destruct (main_loop fuel config (f :: rest) false w) as [[w1 d]|] eqn:E; [|discriminate].
    intros H. injection H as <- _. exact (main_loop_simulated _ _ _ _ _ _ E).
Qed.

End Simulation.



(** The simulated run of [scrub --simulate -c tmp root f.tmp]: a line for
    each entry a run would remove, the tree as it was. *)
Example simulate_run :
  exists w',
    main 5 "scrub" config_tmp_simulate ["root"%string; "f.tmp"%string]
      (fresh_process example_tree 0) = Some (w', ENOTEMPTY)
    /\ fs w' = example_tree
    /\ stderr w' = [msg_unlink "root/a/b/file.tmp"; msg_unlink "f.tmp"].
Proof. eexists. split; [vm_compute; reflexivity | split; reflexivity]. Qed.

(* ================================================================== *)
(** * The tree walker *)

Section Walker.

Lemma Directory_process_loop_run rec config path (dir : Directory) :
  forall (w w' : World),
    Directory_process_loop rec config path dir w = Some w' <->
    entries_run rec config path dir w w'.
Proof.
  induction dir as [|de rest IH]; intros w w'; simpl.
  - split.
    + intros H. injection H as <-. constructor.
    + intros H. inversion H. reflexivity.
  - split.
    + destruct (Directory_process_entry rec config path de w) as [w1|] eqn:E; [|discriminate].
      intros H. apply IH in H. econstructor; eassumption.
    + intros H. inversion H as [|x l v v1 v2 H1 H2]; subst.
      rewrite H1. now apply IH.
Qed.

Lemma opendir_failure path (w w1 : World) :
  opendir path w = (w1, None) ->
  w1 = with_errno (errno w1) w
  /\ (errno w1 = ENOENT \/ errno w1 = ENOTDIR \/ errno w1 = EACCES).
Proof.
  unfold opendir. destruct (lookup (resolve path) (fs w)) as [n|e] eqn:E.
  - destruct (opendir_node n) as [dir|e] eqn:En; [discriminate|].
    intros H. injection H as <-. split; [reflexivity|]. simpl.
    destruct n as [|[] wr es]; simpl in En; try discriminate;
      injection En as <-; tauto.
  - intros H. injection H as <-. split; [reflexivity|]. simpl.
    apply lookup_error in E. tauto.
Qed.

Lemma Directory_process_opened fuel config path (w w1 w' : World) dir rv :
  opendir path w = (w1, Some dir) ->
  Directory_process (S fuel) config path w = Some (w', rv) ->
  rv = ENONE
  /\ exists w2, entries_run (Directory_process fuel config) config path dir w1 w2
                /\ w' = closedir w2.
Proof.
  intros Ho. simpl. rewrite Ho.
  destruct (Directory_process_loop _ config path dir w1) as [w2|] eqn:El; [|discriminate].
  intros H. injection H as <- <-. split; [reflexivity|].
  exists w2. split; [now apply Directory_process_loop_run | reflexivity].
Qed.

Lemma Directory_process_not_opened fuel config path (w w1 w' : World) rv :
  opendir path w = (w1, None) ->
  Directory_process (S fuel) config path w = Some (w', rv) ->
  w' = w1 /\ rv = errno w1 /\ rv <> ENONE.
Proof.
  intros Ho. simpl. rewrite Ho. intros H. injection H as <- <-.
  apply opendir_failure in Ho as [_ [-> | [-> | ->]]]; repeat split; discriminate.
Qed.

Lemma File_process_failure config path (w : World) :
  snd (File_process config path w) <> ENONE ->
  exists w1,
    fst (File_process config path w)
    = Runtime_putError (msg_could_not_unlink path (errno w1)) w1
    /\ snd (File_process config path w) = errno w1.
Proof.
  unfold File_process.
  destruct (File_shouldClobber config (basename path)); [|simpl; congruence].
  destruct (File_unlink config path w) as [w1 r].
  destruct (r =? u32 (-1)); [|simpl; congruence].
  intros _. now exists w1.
Qed.


End Walker.


(** The walk of [ro], which cannot be written: the removal of [ro/a.tmp]
    and that of the empty [ro/d] both fail, both are reported, and the
    walk returns [ENONE]. The walk of [locked] returns [EACCES]. *)
Example Directory_process_failures :
  (exists w',
      Directory_process 3 config_tmp "ro" (fresh_process example_tree 0) = Some (w', ENONE)
      /\ fs w' = example_tree
      /\ stderr w' = [msg_could_not_unlink "ro/a.tmp" EACCES;
                      msg_could_not_unlink_directory "ro/d" EACCES])
  /\ exists w',
      Directory_process 3 config_tmp "locked" (fresh_process example_tree 0)
      = Some (w', EACCES).
Proof.
  split; eexists; [split; [vm_compute; reflexivity | split; reflexivity]
                  | vm_compute; reflexivity].
Qed.

Section EmptiedDirectory.

Lemma find_entry_remove (nm : string) es : find_entry nm (remove_entry nm es) = None.
Proof.
  unfold find_entry, remove_entry. induction es as [|[de c] rest IH]; simpl; [reflexivity|].
  destruct (d_name de =? nm)%string eqn:E; simpl; [exact IH | now rewrite E].
Qed.

Lemma split_last_Some {A : Type} (l parent : list A) (x : A) :
  split_last l = Some (parent, x) -> l = parent ++ [x].
Proof.
  unfold split_last. destruct (rev l) as [|y r] eqn:E; [discriminate|].
  intros H. injection H as <- <-.
  rewrite <- (rev_involutive l), E. reflexivity.
Qed.

Lemma remove_under_removes check parent name (w w' : World) :
  remove_under check parent name w = (w', 0) ->
  lookup (parent ++ [name]) (fs w') = inr ENOENT.
Proof.
  unfold remove_under.
  destruct (lookup parent (fs w)) as [[|r wr es]|e] eqn:E; try discriminate.
  destruct (find_entry name es) as [[de target]|]; [|discriminate].
  destruct (check wr target); [discriminate|].
  intros H. injection H as <-. simpl.
  rewrite lookup_app, (lookup_modify _ _ _ _ E). simpl.
  now rewrite find_entry_remove.
Qed.

(** A successful [rmdir] leaves nothing at the path. *)
Lemma rmdir_removes path (w w' : World) :
  rmdir path w = (w', 0) -> lookup (resolve path) (fs w') = inr ENOENT.
Proof.
  unfold rmdir. destruct (split_last (resolve path)) as [[parent name]|] eqn:E.
  - apply split_last_Some in E. rewrite E. apply remove_under_removes.
  - discriminate.
Qed.

Lemma Directory_isEmpty_true path (w w2 : World) :
  Directory_isEmpty path w = (w2, true) ->
  fs w2 = fs w
  /\ exists wr, lookup (resolve path) (fs w) = inl (Dir true wr []).
Proof.
  intros H. pose proof (Directory_isEmpty_fs path w) as Hfs. rewrite H in Hfs.
  split; [exact Hfs|].
  destruct (opendir path w) as [w1 [dir|]] eqn:Eo.
  - rewrite (Directory_isEmpty_opened _ _ _ _ Eo) in H. injection H as _ Hlen.
    pose proof Eo as Eo'.
    apply opendir_open_dirs in Eo' as [_ (n & Hn & Hdir)].
    destruct n as [|r wr es]; [discriminate|].
    destruct (opendir_entries _ _ _ _ _ _ _ Eo Hn) as [-> ->].
    apply two_entries_iff in Hlen. subst es. now exists wr.
  - unfold Directory_isEmpty in H. rewrite Eo in H. discriminate.
Qed.

Lemma File_unlink_directory config path (w : World) r wr es :
  simulate config = false ->
  lookup (resolve path) (fs w) = inl (Dir r wr es) ->
  File_unlink config path w = (fst (rmdir path w), u32 (snd (rmdir path w))).
Proof.
  intros Hsim Hn. unfold File_unlink, stat. rewrite Hsim, Hn.
  rewrite S_ISDIR_mode_of. simpl. now destruct (rmdir path w).
Qed.

Lemma u32_zero_result (r : Z) : r = 0 \/ r = -1 -> u32 r = 0 -> r = 0.
Proof. intros [->| ->]; [reflexivity | discriminate]. Qed.


End EmptiedDirectory.


(* ================================================================== *)
(** * The exit status *)

Section ExitStatus.

Variable fuel : nat.
Variable config : Configuration.

Lemma main_file_dirty fileName (dirty : bool) (w : World) :
  main_file fuel config fileName dirty w
  = match main_file fuel config fileName false w with
    | Some (w1, d) => Some (w1, dirty || d)
    | None => None
    end.
Proof.
  unfold main_file. destruct (stat fileName w) as [[w1 rc] mode].
  destruct (S_ISDIR mode).
  - destruct (Directory_process fuel config fileName _) as [[w3 rv]|]; [|reflexivity].
    destruct (Directory_isEmpty fileName w3) as [w4 empty].
    destruct empty, dirty; reflexivity.
  - destruct (File_process config fileName _) as [w3 r].
    now rewrite orb_false_r.
Qed.

Lemma main_file_nonempty fileName rest (w w1 : World) :
  main_file fuel config fileName false w = Some (w1, true) ->
  root_left_nonempty fuel config (fileName :: rest) w.
Proof.
  unfold main_file. destruct (stat fileName w) as [[w0 rc] mode] eqn:Es.
  destruct (S_ISDIR mode) eqn:Em.
  - destruct (Directory_process fuel config fileName _) as [[w3 rv]|] eqn:Ed; [|discriminate].
    destruct (Directory_isEmpty fileName w3) as [w4 empty] eqn:Ee.
    destruct empty; [discriminate|]. intros _.
    eapply root_nonempty_here; eassumption.
  - destruct (File_process config fileName _) as [w3 r]. discriminate.
Qed.

Lemma root_nonempty_here_flag fileName (w w1 w3 w4 : World) rc mode rv :
  stat fileName w = (w1, rc, mode) ->
  S_ISDIR mode = true ->
  Directory_process fuel config fileName
    (Runtime_verbose config ("Processing directory " +++ fileName +++ nl) w1)
  = Some (w3, rv) ->
  Directory_isEmpty fileName w3 = (w4, false) ->
  main_file fuel config fileName false w = Some (w4, true).
Proof.
  intros Hs Hm Hd He. unfold main_file. now rewrite Hs, Hm, Hd, He.
Qed.

(** The flag [dirty] after the loop. *)
Lemma main_loop_dirty (files : list string) :
  forall (dirty : bool) (w w' : World) (dirty' : bool),
    main_loop fuel config files dirty w = Some (w', dirty') ->
    (dirty' = true <-> dirty = true \/ root_left_nonempty fuel config files w).
Proof.
  induction files as [|f rest IH]; intros dirty w w' dirty'; simpl.
  - intros H. injection H as _ <-. split; [now left|].
    intros [H|H]; [exact H | inversion H].
  - rewrite main_file_dirty.
    destruct (main_file fuel config f false w) as [[w1 d]|] eqn:Ef; [|discriminate].
    intros H. rewrite (IH _ _ _ _ H). rewrite orb_true_iff. split.
    + intros [[Hd| ->]|Hr].
      * now left.
      * right. eapply main_file_nonempty. exact Ef.
      * right. eapply root_nonempty_later; eassumption.
    + intros [Hd|Hr]; [left; now left|].
      inversion Hr as [f0 rest0 v v1 v3 v4 rc mode rv Hs Hm Hdp He
                      |f0 rest0 v v1 d0 Hf Hlater]; subst.
      * rewrite (root_nonempty_here_flag _ _ _ _ _ _ _ _ Hs Hm Hdp He) in Ef.
        injection Ef as _ <-. left. now right.
      * rewrite Hf in Ef. injection Ef as <- _. now right.
Qed.

Lemma main_status imageName files (w w' : World) rc :
  main fuel imageName config files w = Some (w', rc) ->
  (root_left_nonempty fuel config files w -> rc = ENOTEMPTY)
  /\ (~ root_left_nonempty fuel config files w -> rc = ENONE).
Proof.
  unfold main. destruct files as [|f rest].
  - intros H. injection H as _ <-. split; [intros Hr; inversion Hr | reflexivity].
  - destruct (main_loop fuel config (f :: rest) false w) as [[w1 dirty]|] eqn:E; [|discriminate].
    intros H. injection H as _ <-.
    apply main_loop_dirty in E. destruct dirty.
    + split; [reflexivity|]. intros Hn. destruct (proj1 E eq_refl) as [H|H];
        [discriminate | contradiction].
    + split; [|reflexivity]. intros Hr.
      assert (false = true) by (apply E; now right). discriminate.
Qed.

Lemma main_loop_files (files : list string) :
  forall (dirty : bool) (w : World),
    roots_not_directories config files w ->
    exists w', main_loop fuel config files dirty w = Some (w', dirty).
Proof.
  induction files as [|f rest IH]; intros dirty w; simpl.
  - intros _. now exists w.
  - intros [Hm Hrest]. unfold main_file.
    destruct (stat f w) as [[w1 rc] mode]. simpl in Hm, Hrest. rewrite Hm.
    destruct (File_process config f _) as [w3 r]. simpl in Hrest.
    now apply IH.
Qed.

End ExitStatus.




Section FileRoots.

Variable config : Configuration.

Lemma find_entry_remove_other (g name : string) es :
  g <> name -> find_entry g (remove_entry name es) = find_entry g es.
Proof.
  intros Hg. unfold find_entry, remove_entry.
  induction es as [|[de c] rest IH]; simpl; [reflexivity|].
  destruct (d_name de =? name)%string eqn:E; simpl.
  - apply String.eqb_eq in E.
    destruct (d_name de =? g)%string eqn:E'; [|exact IH].
    apply String.eqb_eq in E'. congruence.
  - now rewrite IH.
Qed.

Lemma find_entry_update_other (g c : string) (f : inode -> inode) es :
  g <> c -> find_entry g (update_entry c f es) = find_entry g es.
Proof.
  intros Hg. unfold find_entry.
  induction es as [|[de x] rest IH]; simpl; [reflexivity|].
  destruct (d_name de =? c)%string eqn:E; simpl.
  - apply String.eqb_eq in E.
    destruct (d_name de =? g)%string eqn:E'; [|reflexivity].
    apply String.eqb_eq in E'. congruence.
  - now rewrite IH.
Qed.

Lemma lookup_NonDir (gs : list string) :
  lookup gs NonDir = inl NonDir -> gs = [].
Proof. destruct gs; [reflexivity | discriminate]. Qed.

(** Removing the file at [parent ++ [name]] leaves the other files where
    they are. *)
Lemma lookup_remove_other (parent : list string) :
  forall (t : inode) r wr es name (gs : list string),
    lookup parent t = inl (Dir r wr es) ->
    lookup (parent ++ [name]) t = inl NonDir ->
    gs <> parent ++ [name] ->
    lookup gs t = inl NonDir ->
    lookup gs (modify parent (fun _ => Dir r wr (remove_entry name es)) t) = inl NonDir.
Proof.
  induction parent as [|c cs IH]; intros t r wr es name gs Hp Hf Hgs Hg.
  - simpl in Hp. injection Hp as ->. simpl in *.
    destruct gs as [|g gs']; [discriminate|]. simpl in *.
    destruct (String.eqb_spec g name) as [->|Hne].
    + destruct (find_entry name es) as [[de child]|]; [|discriminate].
      injection Hf as ->. apply lookup_NonDir in Hg. now subst gs'.
    + now rewrite (find_entry_remove_other _ _ _ Hne).
  - destruct t as [|r0 w0 es0]; [discriminate|]. simpl in Hp, Hf |- *.
    destruct (find_entry c es0) as [[de0 child0]|] eqn:Ec; [|discriminate].
    destruct gs as [|g gs']; [discriminate|]. simpl in Hg |- *.
    destruct (String.eqb_spec g c) as [->|Hne].
    + rewrite find_entry_update, Ec. rewrite Ec in Hg.
      apply (IH child0 r wr es name gs' Hp Hf); [|exact Hg].
      intros Heq. apply Hgs. now rewrite Heq.
    + now rewrite (find_entry_update_other _ _ _ _ Hne).
Qed.

Lemma remove_under_frame parent name (w : World) (gs : list string) :
  lookup (parent ++ [name]) (fs w) = inl NonDir ->
  gs <> parent ++ [name] ->
  lookup gs (fs w) = inl NonDir ->
  lookup gs (fs (fst (remove_under unlink_check parent name w))) = inl NonDir.
Proof.
  intros Hf Hgs Hg. unfold remove_under.
  destruct (lookup parent (fs w)) as [[|r wr es]|e] eqn:Ep; try exact Hg.
  destruct (find_entry name es) as [[de target]|]; [|exact Hg].
  destruct (unlink_check wr target); [exact Hg|].
  simpl. now apply lookup_remove_other.
Qed.

Lemma File_process_frame path (w : World) (gs : list string) :
  lookup (resolve path) (fs w) = inl NonDir ->
  gs <> resolve path ->
  lookup gs (fs w) = inl NonDir ->
  lookup gs (fs (fst (File_process config path w))) = inl NonDir.
Proof.
  intros Hf Hgs Hg. unfold File_process.
  destruct (File_shouldClobber config (basename path)); [|exact Hg].
  assert (Hu : lookup gs (fs (fst (File_unlink config path w))) = inl NonDir).
  { unfold File_unlink. destruct (simulate config); [exact Hg|].
    rewrite (stat_at _ _ _ Hf). simpl.
    unfold unlink. destruct (split_last (resolve path)) as [[parent name]|] eqn:Es.
    - apply split_last_Some in Es. rewrite Es in Hf, Hgs.
      pose proof (remove_under_frame parent name w gs Hf Hgs Hg) as H.
      now destruct (remove_under unlink_check parent name w).
    - exact Hg. }
  destruct (File_unlink config path w) as [w1 r]. simpl in Hu.
  now destruct (r =? u32 (-1)).
Qed.

(** Roots that are distinct files of the tree the run starts from are
    files when their turn comes. *)
Lemma distinct_files_not_directories (files : list string) :
  forall (w : World),
    Forall (fun f => lookup (resolve f) (fs w) = inl NonDir) files ->
    NoDup (map resolve files) ->
    roots_not_directories config files w.
Proof.
  induction files as [|f rest IH]; intros w Hall Hnd; simpl; [exact I|].
  inversion Hall as [|x l Hf Hrest]; subst.
  inversion Hnd as [|x l Hnotin Hnd']; subst.
  rewrite (stat_at _ _ _ Hf). simpl. split; [reflexivity|].
  apply IH; [|exact Hnd'].
  rewrite Forall_forall in *. intros g Hin.
  apply File_process_frame.
  - now rewrite Runtime_verbose_fs.
  - intros Heq. apply Hnotin. rewrite <- Heq. now apply in_map.
  - rewrite Runtime_verbose_fs. now apply Hrest.
Qed.

Lemma main_file_not_directory fuel fileName dirty (w : World) :
  S_ISDIR (snd (stat fileName w)) = false ->
  main_file fuel config fileName dirty w
  = Some (fst (File_process config fileName
                 (Runtime_verbose config ("Processing node " +++ fileName +++ nl)
                    (fst (fst (stat fileName w))))), dirty).
Proof.
  unfold main_file. destruct (stat fileName w) as [[w1 rc] mode]. simpl.
  intros ->. now destruct (File_process config fileName _).
Qed.

End FileRoots.



Example file_roots_failures :
  exists w',
    main 0 "scrub" config_tmp ["ro/a.tmp"%string; "root/keep.txt"%string]
      (fresh_process example_tree 0) = Some (w', ENONE)
    /\ fs w' = example_tree
    /\ stderr w' = [msg_could_not_unlink "ro/a.tmp" EACCES].
Proof. eexists. split; [vm_compute; reflexivity | split; reflexivity]. Qed.

(* ================================================================== *)
(** * A second run *)

Section SecondRun.

Variable config : Configuration.

Lemma no_error_lines_app (d1 d2 : list string) :
  no_error_lines (d1 ++ d2) = no_error_lines d1 && no_error_lines d2.
Proof. apply forallb_app. Qed.

Lemma no_error_lines_In (d : list string) (m : string) :
  no_error_lines d = true -> In m d -> is_error_line m = false.
Proof.
  unfold no_error_lines. rewrite forallb_forall. intros H Hin.
  apply negb_true_iff. now apply H.
Qed.

Lemma failures_are_error_lines path e :
  is_error_line (msg_could_not_unlink path e) = true
  /\ is_error_line (msg_could_not_unlink_directory path e) = true
  /\ is_error_line (msg_could_not_process path e) = true
  /\ is_error_line (msg_isEmpty_open path e) = true.
Proof. repeat split; reflexivity. Qed.

(** A list of lines that holds the report [m] of a failure is not quiet. *)
Ltac failure_reported m :=
  let Hq := fresh "Hq" in
  let Hm := fresh "Hm" in
  intros Hq; exfalso;
  assert (Hm : is_error_line m = false)
    by (apply (no_error_lines_In _ _ Hq); rewrite ?in_app_iff; simpl; tauto);
  discriminate Hm.

Lemma verbose_lines_not_empty_quiet path :
  no_error_lines (verbose_lines config (msg_not_empty path)) = true.
Proof. unfold verbose_lines. now destruct (verbose config). Qed.

Lemma collapse_node_opened (n n1 : inode) path e e1 d1 rv :
  collapse_node config n path e = (n1, e1, d1, rv) ->
  u32 rv = ENONE ->
  rv = 0 /\ exists wr es es1, n = Dir true wr es /\ n1 = Dir true wr es1.
Proof.
  destruct n as [|r wr es].
  - simpl. intros H. injection H as _ _ _ <-. discriminate.
  - destruct r.
    + rewrite collapse_node_Dir.
      destruct (collapse_entries config wr path (collapse_node config) es e)
        as [[es1 e1'] d1'].
      intros H. injection H as <- _ _ <-. intros _.
      split; [reflexivity|]. now exists wr, es, es1.
    + simpl. intros H. injection H as _ _ _ <-. discriminate.
Qed.

Lemma File_unlink_node_quiet wr path target e res e1 d1 rc :
  File_unlink_node config wr path target e = (res, e1, d1, rc) ->
  (rc =? u32 (-1)) = false ->
  (res = None /\ simulate config = false)
  \/ (res = Some target /\ simulate config = true
      /\ forall e2, File_unlink_node config wr path target e2
                    = (Some target, e2, [msg_unlink path], 0)).
Proof.
  unfold File_unlink_node. destruct (simulate config).
  - intros H _. injection H as <- _ _ _. right. repeat split.
  - destruct (if S_ISDIR (mode_of target) then _ else _).
    + intros H. injection H as _ _ _ <-. discriminate.
    + intros H _. injection H as <- _ _ _. now left.
Qed.

Lemma Directory_process_file_node_settled wr path target e c' e1 d1 :
  Directory_process_file_node config wr path target e = (Some c', e1, d1) ->
  no_error_lines d1 = true ->
  c' = target
  /\ forall e2, exists d2,
      Directory_process_file_node config wr path target e2 = (Some target, e2, d2)
      /\ no_error_lines d2 = true.
Proof.
  unfold Directory_process_file_node, File_process_node.
  destruct (File_shouldClobber config (basename path)).
  - destruct (File_unlink_node config wr path target e) as [[[res e0] d0] rc] eqn:Eu.
    destruct (rc =? u32 (-1)) eqn:Erc.
    + destruct (u32 e0 =? ENONE); intros H; injection H as _ _ <-;
        failure_reported (msg_could_not_unlink path e0).
    + simpl (u32 ENONE =? ENONE). cbv iota.
      intros H. injection H as -> -> ->. intros Hq.
      destruct (File_unlink_node_quiet _ _ _ _ _ _ _ _ Eu Erc)
        as [[Hres _]|(Hres & _ & Hagain)]; [discriminate|].
      injection Hres as ->. split; [reflexivity|].
      intros e2. exists [msg_unlink path]. rewrite Hagain. simpl. now split.
  - simpl (u32 ENONE =? ENONE). cbv iota.
    intros H. injection H as <- _ _. intros _. split; [reflexivity|].
    intros e2. exists []. now split.
Qed.

Lemma collapse_entry_settled wr path de c e c' e1 d1 :
  settled config c ->
  collapse_entry config wr path (collapse_node config c) de c e = (Some c', e1, d1) ->
  no_error_lines d1 = true ->
  forall e2, exists d2,
    collapse_entry config wr path (collapse_node config c') de c' e2 = (Some c', e2, d2)
    /\ no_error_lines d2 = true.
Proof.
  intros Hc. unfold collapse_entry.
  destruct (_ || _).
  { intros H _ e2. injection H as <- _ _. exists []. now split. }
  assert (Hkeep : (Some c, e, @nil string) = (Some c', e1, d1) ->
                  no_error_lines d1 = true ->
                  forall e2 : Z, exists d2,
                    (Some c', e2, @nil string) = (Some c', e2, d2)
                    /\ no_error_lines d2 = true).
  { intros _ _ e2. exists []. now split. }
  assert (Hfile :
    Directory_process_file_node config wr (entry_path path (d_name de)) c e
    = (Some c', e1, d1) ->
    no_error_lines d1 = true ->
    forall e2, exists d2,
      Directory_process_file_node config wr (entry_path path (d_name de)) c' e2
      = (Some c', e2, d2)
      /\ no_error_lines d2 = true).
  { intros H Hq. destruct (Directory_process_file_node_settled _ _ _ _ _ _ _ H Hq)
      as [-> Hagain]. exact Hagain. }
  destruct (d_type de); try exact Hkeep; try exact Hfile;
    try (destruct (preserveSpecial config); [exact Hkeep | exact Hfile]).
  destruct (preserveHidden config && File_isHidden (d_name de)); [exact Hkeep|].
  set (cp := entry_path path (d_name de)).
  destruct (collapse_node config c cp e) as [[[c1 e1'] d1'] rv] eqn:Ew.
  destruct (u32 rv =? ENONE) eqn:Erv.
  2:{ intros H. injection H as _ _ <-.
      failure_reported (msg_could_not_process cp (u32 rv)). }
  apply Z.eqb_eq in Erv.
  destruct (collapse_node_opened _ _ _ _ _ _ _ Ew Erv) as (-> & wr0 & es0 & es1 & -> & ->).
  unfold Directory_isEmpty_node. cbn [opendir_node].
  set (empty := fst (Directory_isEmpty_loop (dot_entry :: dotdot_entry :: map fst es1) 0) <=? 2).
  destruct empty eqn:Eempty.
  - destruct (File_unlink_node config wr cp (Dir true wr0 es1) e1')
      as [[[res e3] d3] rc] eqn:Eu.
    destruct (rc =? u32 (-1)) eqn:Erc.
    + intros H. injection H as _ _ <-.
      failure_reported (msg_could_not_unlink_directory cp e3).
    + intros H. injection H as -> -> <-.
      rewrite !no_error_lines_app. intros Hq.
      apply andb_true_iff in Hq as [Hq1 _].
      destruct (File_unlink_node_quiet _ _ _ _ _ _ _ _ Eu Erc)
        as [[Hres _]|(Hres & _ & Hagain)]; [discriminate|].
      injection Hres as Hres. subst c'.
      intros e2.
      destruct (Hc _ _ _ _ _ _ Ew Erv Hq1 e2) as (d2 & Hw2 & Hq2).
      rewrite Hw2. simpl (u32 0 =? ENONE). cbv iota.
      cbn [opendir_node]. fold empty. rewrite Eempty. rewrite Hagain. simpl (0 =? u32 (-1)). cbv iota.
      eexists. split; [reflexivity|].
      rewrite !no_error_lines_app, Hq2. reflexivity.
  - intros H. injection H as <- <- <-.
    rewrite !no_error_lines_app. intros Hq.
    apply andb_true_iff in Hq as [Hq1 _].
    intros e2.
    destruct (Hc _ _ _ _ _ _ Ew Erv Hq1 e2) as (d2 & Hw2 & Hq2).
    rewrite Hw2. simpl (u32 0 =? ENONE). cbv iota.
    cbn [opendir_node]. fold empty. rewrite Eempty.
    eexists. split; [reflexivity|].
    rewrite !no_error_lines_app, Hq2. simpl.
    now rewrite verbose_lines_not_empty_quiet.
Qed.

Lemma collapse_entries_settled wr path (es : list (DirEntry * inode)) :
  Forall (fun x => settled config (snd x)) es ->
  forall e es1 e1 d1,
    collapse_entries config wr path (collapse_node config) es e = (es1, e1, d1) ->
    no_error_lines d1 = true ->
    forall e2, exists d2,
      collapse_entries config wr path (collapse_node config) es1 e2 = (es1, e2, d2)
      /\ no_error_lines d2 = true.
Proof.
  induction 1 as [|[de c] rest Hc Hrest IH]; intros e es1 e1 d1; simpl.
  - intros H _ e2. injection H as <- _ _. exists []. now split.
  - destruct (collapse_entry config wr path (collapse_node config c) de c e)
      as [[res e0] d0] eqn:Ee.
    destruct (collapse_entries config wr path (collapse_node config) rest e0)
      as [[rest' e0'] d0'] eqn:Er.
    intros H. injection H as <- <- <-.
    rewrite no_error_lines_app. intros Hq. apply andb_true_iff in Hq as [Hq0 Hq0'].
    intros e2.
    destruct res as [c'|].
    + simpl in Hc.
      destruct (collapse_entry_settled _ _ _ _ _ _ _ _ Hc Ee Hq0 e2) as (d2 & He2 & Hq2).
      destruct (IH _ _ _ _ Er Hq0' e2) as (d2' & Hr2 & Hq2').
      simpl. rewrite He2, Hr2.
      exists (d2 ++ d2'). split; [reflexivity|].
      now rewrite no_error_lines_app, Hq2, Hq2'.
    + exact (IH _ _ _ _ Er Hq0' e2).
Qed.

Lemma collapse_node_settled (n : inode) : settled config n.
Proof.
  induction n as [|r wr es IH] using inode_ind; unfold settled.
  - intros path e n1 e1 d1 rv H Hrv.
    destruct (collapse_node_opened _ _ _ _ _ _ _ H Hrv) as (_ & ? & ? & ? & Hn & _).
    discriminate.
  - intros path e n1 e1 d1 rv H Hrv Hq e2.
    destruct (collapse_node_opened _ _ _ _ _ _ _ H Hrv) as (-> & wr0 & es0 & es1 & Hn & ->).
    injection Hn as -> <- <-.
    rewrite collapse_node_Dir in H.
    destruct (collapse_entries config wr path (collapse_node config) es e)
      as [[es1' e1'] d1'] eqn:Ec.
    injection H as <- <- <-.
    destruct (collapse_entries_settled wr path es IH _ _ _ _ Ec Hq e2) as (d2 & H2 & Hq2).
    exists d2. rewrite collapse_node_Dir, H2. now split.
Qed.

End SecondRun.

Section SecondRunOfMain.

Variable config : Configuration.

Lemma Directory_isEmpty_at path (w : World) (n : inode) :
  lookup (resolve path) (fs w) = inl n ->
  Directory_isEmpty path w
  = let '(empty, e', d) := Directory_isEmpty_node path n (errno w) in
    (touch e' d w, empty).
Proof.
  intros H. unfold Directory_isEmpty, opendir, Directory_isEmpty_node. rewrite H.
  destruct (opendir_node n) as [dir|err]; [|reflexivity].
  destruct (Directory_isEmpty_loop dir 0) as [index rest]. simpl fst.
  now rewrite closedir_opened.
Qed.

Lemma main_single fuel imageName root (w : World) :
  main fuel imageName config [root] w
  = match main_file fuel config root false w with
    | Some (w1, dirty) => Some (w1, if dirty then ENOTEMPTY else ENONE)
    | None => None
    end.
Proof.
  unfold main. simpl.
  now destruct (main_file fuel config root false w) as [[w1 dirty]|].
Qed.

(** [main]'s turn on a root that is a directory, on the tree. *)
Lemma main_file_directory fuel root dirty (w : World) (n : inode) :
  lookup (resolve root) (fs w) = inl n ->
  is_dir n = true ->
  wf_inode n = true ->
  (height n <= fuel)%nat ->
  main_file fuel config root dirty w
  = let wv := Runtime_verbose config ("Processing directory " +++ root +++ nl) w in
    let '(n1, e1, d1, rv) := collapse_node config n root (errno wv) in
    let '(empty, e2, d2) := Directory_isEmpty_node root n1 e1 in
    Some (touch e2 d2 (put (resolve root) n1 e1 d1 wv), if empty then dirty else true).
Proof.
  intros Hn Hd Hwf Hh. unfold main_file.
  rewrite (stat_at _ _ _ Hn), S_ISDIR_mode_of, Hd.
  set (wv := Runtime_verbose config _ w).
  assert (Hnv : lookup (resolve root) (fs wv) = inl n).
  { unfold wv. now rewrite Runtime_verbose_fs. }
  rewrite (Directory_process_collapse fuel config root wv n Hnv Hwf Hh).
  cbv zeta.
  destruct (collapse_node config n root (errno wv)) as [[[n1 e1] d1] rv].
  rewrite (Directory_isEmpty_at root _ n1).
  - simpl errno. now destruct (Directory_isEmpty_node root n1 e1) as [[empty e2] d2].
  - simpl. now rewrite (lookup_modify _ _ _ _ Hnv).
Qed.

Lemma processing_line_quiet root :
  no_error_lines (verbose_lines config ("Processing directory " +++ root +++ nl)) = true.
Proof. unfold verbose_lines. now destruct (verbose config). Qed.

Lemma Runtime_verbose_fresh m t junk :
  stderr (Runtime_verbose config m (fresh_process t junk)) = verbose_lines config m
  /\ fs (Runtime_verbose config m (fresh_process t junk)) = t.
Proof. unfold Runtime_verbose, verbose_lines. now destruct (verbose config). Qed.

Lemma Directory_isEmpty_node_quiet root (n1 : inode) e1 empty e2 d2 :
  Directory_isEmpty_node root n1 e1 = (empty, e2, d2) ->
  no_error_lines d2 = true ->
  (exists wr es1, n1 = Dir true wr es1)
  /\ forall e, Directory_isEmpty_node root n1 e = (empty, e, []).
Proof.
  unfold Directory_isEmpty_node.
  destruct n1 as [|[] wr es1]; simpl.
  - intros H. injection H as _ _ <-. discriminate.
  - intros H _. injection H as <- _ _. split; [now exists wr, es1 | reflexivity].
  - intros H. injection H as _ _ <-. discriminate.
Qed.

End SecondRunOfMain.



(** The cascade: one run of [scrub -c tmp root] removes
    [root/a/b/file.tmp], then [root/a/b] and [root/a]; [root] keeps
    [keep.txt], and the exit status is [ENOTEMPTY]. A second run finds
    nothing to do. *)
Example cascade :
  exists w1 w2,
    main 5 "scrub" config_tmp ["root"%string] (fresh_process example_tree 0)
    = Some (w1, ENOTEMPTY)
    /\ lookup (resolve "root") (fs w1)
       = inl (Dir true true [entry "keep.txt" DT_REG NonDir])
    /\ stderr w1 = []
    /\ main 5 "scrub" config_tmp ["root"%string] (fresh_process (fs w1) 0)
       = Some (w2, ENOTEMPTY)
    /\ fs w2 = fs w1
    /\ stderr w2 = [].
Proof.
  do 2 eexists.
  split; [vm_compute; reflexivity|].
  split; [reflexivity|]. split; [reflexivity|].
  split; [vm_compute; reflexivity|].
  split; reflexivity.
Qed.


(* ================================================================== *)
(** * Further properties of the walker *)

Section Streams.

(** The two loops read their stream with [readdir] until it returns the
    null pointer. *)
Lemma Directory_process_loop_readdir rec config path (dir : Directory) (w : World) :
  Directory_process_loop rec config path dir w
  = match readdir dir with
    | (None, _) => Some w
    | (Some currentEntry, rest) =>
        match Directory_process_entry rec config path currentEntry w with
        | None => None
        | Some w1 => Directory_process_loop rec config path rest w1
        end
    end.
Proof. destruct dir; reflexivity. Qed.

Lemma Directory_isEmpty_loop_readdir (dir : Directory) (index : Z) :
  Directory_isEmpty_loop dir index
  = match readdir dir with
    | (None, rest) => (index, rest)
    | (Some _, rest) =>
        if u32 (index + 1) >? 2 then (u32 (index + 1), rest)
        else Directory_isEmpty_loop rest (u32 (index + 1))
    end.
Proof. destruct dir; reflexivity. Qed.

End Streams.



(* ================================================================== *)
(** * The name File_process decides by *)

Section Basename.

Lemma contains_append (a b : string) (c : ascii) :
  contains (a +++ b) c = contains a c || contains b c.
Proof.
  induction a as [|x r IH]; simpl; [reflexivity|].
  now rewrite IH, orb_assoc.
Qed.

Lemma append_slash_not_empty (p nm : string) :
  (p +++ String slash nm =? "")%string = false.
Proof. now destruct p. Qed.

Lemma strip_slashes_plain (nm : string) :
  contains nm slash = false -> strip_slashes nm = nm.
Proof.
  induction nm as [|a r IH]; simpl; [reflexivity|].
  intros H. apply orb_false_iff in H as [Ha Hr].
  now rewrite (IH Hr), Ha, andb_false_r.
Qed.

Lemma strip_slashes_entry_path (p nm : string) :
  (nm =? "")%string = false -> contains nm slash = false ->
  strip_slashes (p +++ String slash nm) = p +++ String slash nm.
Proof.
  intros Hne Hns. induction p as [|a r IH]; simpl.
  - now rewrite (strip_slashes_plain nm Hns), Hne.
  - now rewrite IH, append_slash_not_empty.
Qed.

Lemma last_component_entry_path (p nm : string) :
  contains nm slash = false ->
  last_component (p +++ String slash nm) = nm.
Proof.
  intros Hns. induction p as [|a r IH]; simpl.
  - now rewrite Hns.
  - rewrite contains_append. simpl. rewrite orb_true_r. exact IH.
Qed.

(** The path the walker builds for an entry has the entry's name as its
    [basename]. *)
Lemma basename_entry_path (path nm : string) :
  valid_name nm = true -> basename (entry_path path nm) = nm.
Proof.
  intros H. apply valid_name_inv in H as (Hne & _ & _ & Hns).
  replace (entry_path path nm) with (path +++ String slash nm) by reflexivity.
  unfold basename. cbv zeta.
  rewrite append_slash_not_empty, (strip_slashes_entry_path path nm Hne Hns).
  rewrite append_slash_not_empty.
  now apply last_component_entry_path.
Qed.

End Basename.

(* ================================================================== *)
(** * What a walk spares *)

Section Spared.

Variable config : Configuration.

(** The object a walk or a routine leaves. *)
Local Abbreviation object_of x := (fst (fst (fst x))).

Lemma collapse_entry_protected wr path walk de c e :
  valid_name (d_name de) = true ->
  protected config de = true ->
  collapse_entry config wr path walk de c e = (Some c, e, []).
Proof.
  intros Hv Hp. unfold collapse_entry.
  rewrite (valid_name_not_dots _ Hv).
  assert (Hfile : File_shouldClobber config (d_name de) = false ->
                  Directory_process_file_node config wr (entry_path path (d_name de)) c e
                  = (Some c, e, [])).
  { intros Hs. unfold Directory_process_file_node, File_process_node.
    now rewrite (basename_entry_path path _ Hv), Hs. }
  unfold protected in Hp.
  destruct (d_type de); cbv zeta;
    try (apply Hfile; now apply negb_true_iff);
    try (now rewrite Hp);
    try reflexivity;
    (destruct (preserveSpecial config); [reflexivity|];
     apply Hfile; now apply negb_true_iff).
Qed.

Lemma Directory_isEmpty_node_occupied path c e :
  occupied c = true -> fst (fst (Directory_isEmpty_node path c e)) = false.
Proof.
  destruct c as [|r w [|x es]]; try discriminate. intros _.
  unfold Directory_isEmpty_node, opendir_node.
  destruct r; [|reflexivity].
  cbn [fst]. now rewrite Directory_isEmpty_loop_verdict.
Qed.

Lemma File_unlink_node_occupied wr path c e :
  occupied c = true -> object_of (File_unlink_node config wr path c e) = Some c.
Proof.
  destruct c as [|r w [|x es]]; try discriminate. intros _.
  unfold File_unlink_node.
  destruct (simulate config); [reflexivity|].
  rewrite S_ISDIR_mode_of. cbn [is_dir].
  now destruct wr.
Qed.

Lemma Directory_process_file_node_occupied wr path c e :
  occupied c = true ->
  fst (fst (Directory_process_file_node config wr path c e)) = Some c.
Proof.
  intros Ho. unfold Directory_process_file_node, File_process_node.
  destruct (File_shouldClobber config (basename path)); [|reflexivity].
  pose proof (File_unlink_node_occupied wr path c e Ho) as H.
  destruct (File_unlink_node config wr path c e) as [[[res e1] d1] r].
  cbn [fst] in H. subst res.
  destruct (r =? u32 (-1));
    match goal with |- context [if ?b then _ else _] => now destruct b end.
Qed.

(** An entry whose object is a directory that holds something, and whose
    walk leaves such a directory, is not removed. *)
Lemma collapse_entry_occupied wr path walk de c e :
  occupied c = true ->
  (forall p e0, occupied (object_of (walk p e0)) = true) ->
  exists c', fst (fst (collapse_entry config wr path walk de c e)) = Some c'
             /\ (c' = c \/ exists p e0, c' = object_of (walk p e0)).
Proof.
  intros Ho Hw. unfold collapse_entry.
  destruct ((strcmp (d_name de) "." =? 0) || (strcmp (d_name de) ".." =? 0));
    [exists c; now split; [|left]|].
  cbv zeta.
  assert (Hfile : exists c',
             fst (fst (Directory_process_file_node config wr
                         (entry_path path (d_name de)) c e)) = Some c'
             /\ (c' = c \/ exists p e0, c' = object_of (walk p e0))).
  { exists c. split; [now apply Directory_process_file_node_occupied | now left]. }
  destruct (d_type de); try exact Hfile;
    try (destruct (preserveSpecial config); [exists c; now split; [|left] | exact Hfile]);
    try (exists c; now split; [|left]).
  destruct (preserveHidden config && File_isHidden (d_name de));
    [exists c; now split; [|left]|].
  pose proof (Hw (entry_path path (d_name de)) e) as Hc1.
  destruct (walk (entry_path path (d_name de)) e) as [[[c1 e1] d1] r] eqn:Ewalk.
  cbn [fst] in Hc1.
  assert (Hres : c1 = object_of (walk (entry_path path (d_name de)) e))
    by now rewrite Ewalk.
  exists c1. split; [|right; now exists (entry_path path (d_name de)), e].
  destruct (u32 r =? ENONE); [|reflexivity].
  pose proof (Directory_isEmpty_node_occupied (entry_path path (d_name de)) c1 e1 Hc1) as He.
  destruct (Directory_isEmpty_node (entry_path path (d_name de)) c1 e1) as [[empty e2] d2].
  cbn [fst] in He. subst empty. reflexivity.
Qed.

(** The entry a name finds in a directory, after the walk of the
    directory's entries, when the walk keeps that entry. *)
Lemma find_entry_collapse_entries wr path walk (Q : inode -> Prop) nm de c :
  forall es e,
    find_entry nm es = Some (de, c) ->
    (forall e0, exists c',
        fst (fst (collapse_entry config wr path (walk c) de c e0)) = Some c' /\ Q c') ->
    exists c',
      find_entry nm (fst (fst (collapse_entries config wr path walk es e))) = Some (de, c')
      /\ Q c'.
Proof.
  induction es as [|[de1 c1] rest IH]; intros e Hfind Hkeep; [discriminate|].
  unfold find_entry in Hfind. cbn [find fst] in Hfind.
  cbn [collapse_entries].
  destruct (d_name de1 =? nm)%string eqn:Enm.
  - injection Hfind as -> ->.
    destruct (Hkeep e) as (c' & Hres & HQ).
    destruct (collapse_entry config wr path (walk c) de c e) as [[res e1] d1].
    cbn [fst] in Hres. subst res.
    destruct (collapse_entries config wr path walk rest e1) as [[rest' e2] d2].
    exists c'. split; [|exact HQ].
    unfold find_entry. cbn [fst find]. now rewrite Enm.
  - destruct (collapse_entry config wr path (walk c1) de1 c1 e) as [[res e1] d1].
    destruct (IH e1 Hfind Hkeep) as (c' & Hf & HQ).
    destruct (collapse_entries config wr path walk rest e1) as [[rest' e2] d2].
    exists c'. split; [|exact HQ].
    cbn [fst] in Hf |- *.
    destruct res as [t'|]; [|exact Hf].
    unfold find_entry. cbn [find fst]. rewrite Enm. exact Hf.
Qed.

Lemma held_occupied rel r0 w0 nm de target c :
  held rel r0 w0 nm de target c -> occupied c = true.
Proof.
  intros (es0 & Hl & Hf). destruct rel as [|x cs]; cbn [lookup] in Hl.
  - injection Hl as ->. now destruct es0.
  - destruct c as [|r w es]; [discriminate|].
    destruct es; [discriminate | reflexivity].
Qed.

(** On the tree: a protected entry, at any depth under the directory that
    is walked, is there after the walk, with the object it had. *)
Lemma collapse_node_spares r0 w0 nm de target :
  protected config de = true ->
  forall (n : inode) path e rel,
    wf_inode n = true ->
    held rel r0 w0 nm de target n ->
    held rel r0 w0 nm de target (object_of (collapse_node config n path e)).
Proof.
  intros Hp.
  induction n as [|r wr es IH] using inode_ind; intros path e rel Hwf Hheld;
    [exact Hheld|].
  destruct r; [|exact Hheld].
  rewrite collapse_node_Dir.
  destruct Hheld as (es0 & Hl & Hf).
  destruct rel as [|x cs]; cbn [lookup] in Hl.
  - injection Hl as <- <- <-.
    destruct (find_entry_In _ _ _ _ Hf) as [Hin Hnm].
    destruct (wf_inode_entry _ _ _ _ _ Hwf Hin) as [Hv _].
    destruct (find_entry_collapse_entries wr path (collapse_node config)
                (fun c' => c' = target) nm de target es e Hf) as (c' & Hf' & ->).
    { intros e0. exists target. split; [|reflexivity].
      now rewrite collapse_entry_protected. }
    destruct (collapse_entries config wr path (collapse_node config) es e)
      as [[es' e'] d].
    cbn [fst] in Hf' |- *. now exists es'.
  - destruct (find_entry x es) as [[dex child]|] eqn:Ex; [|discriminate].
    destruct (find_entry_In _ _ _ _ Ex) as [Hin _].
    destruct (wf_inode_entry _ _ _ _ _ Hwf Hin) as [_ Hwfc].
    assert (Hchild : held cs r0 w0 nm de target child) by now exists es0.
    assert (Hwalk : forall p e0,
               held cs r0 w0 nm de target (object_of (collapse_node config child p e0))).
    { intros p e0. rewrite Forall_forall in IH.
      exact (IH (dex, child) Hin p e0 cs Hwfc Hchild). }
    destruct (find_entry_collapse_entries wr path (collapse_node config)
                (held cs r0 w0 nm de target) x dex child es e Ex)
      as (c' & Hf' & es0' & Hl' & Hnm').
    { intros e0.
      destruct (collapse_entry_occupied wr path (collapse_node config child) dex child e0)
        as (c' & Hres & Hc').
      - exact (held_occupied _ _ _ _ _ _ _ Hchild).
      - intros p e1. exact (held_occupied _ _ _ _ _ _ _ (Hwalk p e1)).
      - exists c'. split; [exact Hres|].
        destruct Hc' as [->|(p & e1 & ->)]; [exact Hchild | apply Hwalk]. }
    destruct (collapse_entries config wr path (collapse_node config) es e)
      as [[es' e'] d].
    cbn [fst] in Hf' |- *. exists es0'. split; [|exact Hnm'].
    cbn [lookup]. now rewrite Hf'.
Qed.

End Spared.



(* ================================================================== *)
(** * A run that meets no obstacle *)

Section Healthy.

Variable config : Configuration.
Hypothesis Hreal : simulate config = false.

Lemma prune_Dir r w es : prune config (Dir r w es) = Dir r w (flat_map (prune_entry config (prune config)) es).
Proof. reflexivity. Qed.

Lemma File_shouldClobber_unprotected de :
  is_DT_DIR (d_type de) = false ->
  protected config de = false ->
  File_shouldClobber config (d_name de) = true
  /\ (In (d_type de) [DT_BLK; DT_CHR; DT_FIFO; DT_LNK; DT_SOCK] ->
      preserveSpecial config = false).
Proof.
  unfold protected. destruct (d_type de); try discriminate; intros _ H;
    try (apply orb_false_iff in H as [Hs H]);
    try (apply negb_false_iff in H);
    (split; [exact H | intros Hin; try assumption; simpl in Hin; intuition discriminate]).
Qed.

Lemma Directory_process_file_node_removes path de e :
  valid_name (d_name de) = true ->
  File_shouldClobber config (d_name de) = true ->
  Directory_process_file_node config true (entry_path path (d_name de)) NonDir e
  = (None, e, []).
Proof.
  intros Hv Hs. unfold Directory_process_file_node, File_process_node, File_unlink_node.
  now rewrite (basename_entry_path path _ Hv), Hs, Hreal.
Qed.

(** One entry of a healthy directory: the walk does what [prune_entry]
    says, leaves [errno] alone and reports no failure. *)
Lemma collapse_entry_healthy path de c e :
  valid_name (d_name de) = true ->
  Bool.eqb (is_DT_DIR (d_type de)) (is_dir c) = true ->
  (is_dir c = true ->
   forall p e0, exists d,
     collapse_node config c p e0 = (prune config c, e0, d, 0)
     /\ no_error_lines d = true
     /\ (verbose config = false -> d = [])) ->
  (is_dir c = true -> exists es, c = Dir true true es) ->
  exists res d,
    collapse_entry config true path (collapse_node config c) de c e = (res, e, d)
    /\ prune_entry config (prune config) (de, c) = match res with Some c' => [(de, c')] | None => [] end
    /\ no_error_lines d = true
    /\ (verbose config = false -> d = []).
Proof.
  intros Hv Htype IH Hflags.
  apply Bool.eqb_prop in Htype.
  unfold prune_entry. cbn [fst snd].
  destruct (protected config de) eqn:Hp.
  { exists (Some c), []. rewrite (collapse_entry_protected config true path _ de c e Hv Hp).
    repeat split. now destruct (is_DT_DIR (d_type de)). }
  destruct (is_DT_DIR (d_type de)) eqn:Edir.
  - symmetry in Htype. destruct (Hflags Htype) as (es & ->).
    destruct (IH Htype (entry_path path (d_name de)) e) as (d1 & Hwalk & Hq & Hsilent).
    unfold collapse_entry. rewrite (valid_name_not_dots _ Hv). cbv zeta.
    destruct (d_type de) eqn:Et; try discriminate.
    unfold protected in Hp. rewrite Et in Hp. rewrite Hp, Hwalk.
    change (u32 0 =? ENONE) with true. cbv iota.
    rewrite prune_Dir in *.
    unfold Directory_isEmpty_node, opendir_node.
    rewrite Directory_isEmpty_loop_verdict.
    destruct (flat_map (prune_entry config (prune config)) es) as [|x rest] eqn:Eleft.
    + exists None, (d1 ++ [] ++ []). cbn [fst length Nat.leb map].
      unfold File_unlink_node. rewrite Hreal.
      repeat split.
      * now rewrite !app_nil_r.
      * intros Hverb. now rewrite (Hsilent Hverb).
    + exists (Some (Dir true true (x :: rest))),
        (d1 ++ [] ++ verbose_lines config (msg_not_empty (entry_path path (d_name de)))).
      cbn [fst length Nat.leb map occupied].
      repeat split.
      * rewrite !no_error_lines_app, Hq. cbn [no_error_lines forallb andb].
        apply verbose_lines_not_empty_quiet.
      * intros Hverb. rewrite (Hsilent Hverb). unfold verbose_lines. now rewrite Hverb.
  - destruct c as [|r w es]; [|discriminate].
    destruct (File_shouldClobber_unprotected de Edir Hp) as [Hs Hspecial].
    exists None, []. split; [|now repeat split].
    unfold collapse_entry. rewrite (valid_name_not_dots _ Hv). cbv zeta.
    pose proof (Directory_process_file_node_removes path de e Hv Hs) as Hfile.
    destruct (d_type de) eqn:Et; try discriminate; try exact Hfile;
      try (rewrite Hspecial by (simpl; tauto); exact Hfile).
    unfold protected in Hp. rewrite Et in Hp. discriminate.
Qed.

Lemma collapse_entries_healthy path :
  forall es e,
    Forall (fun x =>
              valid_name (d_name (fst x)) = true
              /\ Bool.eqb (is_DT_DIR (d_type (fst x))) (is_dir (snd x)) = true
              /\ (is_dir (snd x) = true -> exists es0, snd x = Dir true true es0)
              /\ (is_dir (snd x) = true ->
                  forall p e0, exists d,
                    collapse_node config (snd x) p e0 = (prune config (snd x), e0, d, 0)
                    /\ no_error_lines d = true
                    /\ (verbose config = false -> d = []))) es ->
    exists d,
      collapse_entries config true path (collapse_node config) es e
      = (flat_map (prune_entry config (prune config)) es, e, d)
      /\ no_error_lines d = true
      /\ (verbose config = false -> d = []).
Proof.
  induction es as [|[de c] rest IH]; intros e Hall.
  - exists []. now repeat split.
  - inversion Hall as [|x l (Hv & Ht & Hflags & Hwalk) Hrest]; subst.
    cbn [fst snd] in *.
    destruct (collapse_entry_healthy path de c e Hv Ht Hwalk Hflags)
      as (res & d1 & Hentry & Hprune & Hq1 & Hs1).
    destruct (IH e Hrest) as (d2 & Hentries & Hq2 & Hs2).
    exists (d1 ++ d2).
    cbn [collapse_entries flat_map]. rewrite Hentry, Hentries, Hprune.
    repeat split.
    + now destruct res.
    + now rewrite no_error_lines_app, Hq1, Hq2.
    + intros Hverb. now rewrite (Hs1 Hverb), (Hs2 Hverb).
Qed.

Lemma healthy_Dir r w es :
  healthy (Dir r w es) = true ->
  r = true /\ w = true
  /\ Forall (fun x => Bool.eqb (is_DT_DIR (d_type (fst x))) (is_dir (snd x)) = true
                      /\ healthy (snd x) = true) es.
Proof.
  cbn [healthy]. intros H.
  apply andb_true_iff in H as [H Hes]. apply andb_true_iff in H as [-> ->].
  repeat split. rewrite forallb_forall in Hes. apply Forall_forall.
  intros x Hx. now apply andb_true_iff, Hes.
Qed.

(** On the tree: the walk of a healthy directory leaves what [prune]
    says, returns [ENONE], leaves [errno] alone and reports no failure. *)
Lemma collapse_node_healthy (n : inode) :
  wf_inode n = true ->
  healthy n = true ->
  is_dir n = true ->
  forall path e, exists d,
    collapse_node config n path e = (prune config n, e, d, 0)
    /\ no_error_lines d = true
    /\ (verbose config = false -> d = []).
Proof.
  induction n as [|r wr es IH] using inode_ind; [discriminate|].
  intros Hwf Hh _ path e.
  destruct (healthy_Dir _ _ _ Hh) as (-> & -> & Hes).
  apply wf_inode_Dir in Hwf as [_ Hvalid].
  rewrite collapse_node_Dir, prune_Dir.
  destruct (collapse_entries_healthy path es e) as (d & Hentries & Hq & Hs).
  { rewrite Forall_forall in *. intros x Hx.
    destruct (Hvalid x Hx) as [Hv Hwfx]. destruct (Hes x Hx) as [Ht Hhx].
    repeat split; try assumption.
    - intros Hd. destruct (snd x) as [|r w es0]; [discriminate|].
      destruct (healthy_Dir _ _ _ Hhx) as (-> & -> & _). now exists es0.
    - intros Hd. now apply IH. }
  exists d. now rewrite Hentries.
Qed.

End Healthy.



(* ================================================================== *)
(** * What a simulated run announces *)

Section Announced.

Variable config : Configuration.
Hypothesis Hsim : simulate config = true.
Hypothesis Hquiet : verbose config = false.

Lemma collapse_entry_announced path de c e :
  valid_name (d_name de) = true ->
  Bool.eqb (is_DT_DIR (d_type de)) (is_dir c) = true ->
  (is_dir c = true ->
   forall p e0, collapse_node config c p e0 = (c, e0, unlink_lines config c p, 0)) ->
  (is_dir c = true -> exists es, c = Dir true true es) ->
  collapse_entry config true path (collapse_node config c) de c e
  = (Some c, e,
     if protected config de then []
     else if is_DT_DIR (d_type de) then
       unlink_lines config c (entry_path path (d_name de))
       ++ (if occupied c then [] else [msg_unlink (entry_path path (d_name de))])
     else [msg_unlink (entry_path path (d_name de))]).
Proof.
  intros Hv Htype IH Hflags.
  apply Bool.eqb_prop in Htype.
  destruct (protected config de) eqn:Hp;
    [exact (collapse_entry_protected config true path _ de c e Hv Hp)|].
  destruct (is_DT_DIR (d_type de)) eqn:Edir.
  - symmetry in Htype. destruct (Hflags Htype) as (es & ->).
    unfold collapse_entry. rewrite (valid_name_not_dots _ Hv). cbv zeta.
    destruct (d_type de) eqn:Et; try discriminate.
    unfold protected in Hp. rewrite Et in Hp.
    rewrite Hp, (IH Htype).
    change (u32 0 =? ENONE) with true. cbv iota.
    unfold Directory_isEmpty_node, opendir_node.
    rewrite Directory_isEmpty_loop_verdict.
    unfold File_unlink_node, verbose_lines. rewrite Hsim, Hquiet.
    destruct es as [|x rest]; cbn [fst length Nat.leb map occupied app];
      [reflexivity | now rewrite app_nil_r].
  - destruct c as [|r w es]; [|discriminate].
    destruct (File_shouldClobber_unprotected config de Edir Hp) as [Hs Hspecial].
    assert (Hfile : Directory_process_file_node config true
                      (entry_path path (d_name de)) NonDir e
                    = (Some NonDir, e, [msg_unlink (entry_path path (d_name de))])).
    { unfold Directory_process_file_node, File_process_node, File_unlink_node.
      now rewrite (basename_entry_path path _ Hv), Hs, Hsim. }
    unfold collapse_entry. rewrite (valid_name_not_dots _ Hv). cbv zeta.
    destruct (d_type de) eqn:Et; try discriminate; try exact Hfile;
      try (rewrite Hspecial by (simpl; tauto); exact Hfile).
    unfold protected in Hp. rewrite Et in Hp. discriminate.
Qed.

(** On the tree: a simulated walk of a healthy directory leaves it as it
    is and announces [unlink_lines]. *)
Lemma collapse_node_announced (n : inode) :
  wf_inode n = true ->
  healthy n = true ->
  is_dir n = true ->
  forall path e, collapse_node config n path e = (n, e, unlink_lines config n path, 0).
Proof.
  induction n as [|r wr es IH] using inode_ind; [discriminate|].
  intros Hwf Hh _ path e.
  destruct (healthy_Dir _ _ _ Hh) as (-> & -> & Hes).
  apply wf_inode_Dir in Hwf as [_ Hvalid].
  rewrite collapse_node_Dir. cbn [unlink_lines].
  assert (Hentries :
            forall e0,
              collapse_entries config true path (collapse_node config) es e0
              = (es, e0,
                 flat_map
                   (fun x =>
                      if protected config (fst x) then []
                      else if is_DT_DIR (d_type (fst x)) then
                        unlink_lines config (snd x) (entry_path path (d_name (fst x)))
                        ++ (if occupied (snd x) then []
                            else [msg_unlink (entry_path path (d_name (fst x)))])
                      else [msg_unlink (entry_path path (d_name (fst x)))]) es)).
  { clear e Hh. induction es as [|[de c] rest IHes]; intros e0; [reflexivity|].
    inversion IH as [|x l Hc IHrest]; subst.
    inversion Hes as [|x l [Ht Hhc] Hesrest]; subst.
    inversion Hvalid as [|x l [Hv Hwfc] Hvrest]; subst.
    cbn [fst snd] in *.
    cbn [collapse_entries flat_map].
    rewrite (collapse_entry_announced path de c e0 Hv Ht).
    - now rewrite (IHes IHrest Hvrest Hesrest).
    - intros Hd p e1. now apply Hc.
    - intros Hd. destruct c as [|r w es0]; [discriminate|].
      destruct (healthy_Dir _ _ _ Hhc) as (-> & -> & _). now exists es0. }
  now rewrite Hentries.
Qed.

End Announced.



(* ================================================================== *)
(** * What a run leaves behind *)

Section SubTree.

Lemma sub_entries_refl (R : inode -> inode -> Prop) es :
  Forall (fun x => R (snd x) (snd x)) es -> sub_entries R es es.
Proof.
  induction 1 as [|[de c] rest Hc _ IH]; [constructor|].
  now apply sub_entries_keep.
Qed.

Lemma sub_tree_refl (n : inode) : sub_tree n n.
Proof.
  induction n as [|r w es IH] using inode_ind; constructor.
  now apply sub_entries_refl.
Qed.

Lemma sub_entries_trans (R : inode -> inode -> Prop) esb esc :
  sub_entries R esb esc ->
  Forall (fun x => forall a b, R a b -> R b (snd x) -> R a (snd x)) esc ->
  forall esa, sub_entries R esa esb -> sub_entries R esa esc.
Proof.
  induction 1 as [|x esb esc Hbc IH|de nb nc esb esc Hn Hbc IH]; intros Hall esa Hab.
  - exact Hab.
  - inversion Hall; subst. apply sub_entries_drop. now apply IH.
  - inversion Hall as [|y l Hhead Hrest]; subst. cbn [snd] in Hhead.
    inversion Hab as [|y l1 l2 Hab'|de' na nb' esa' esb' Hna Hab']; subst.
    + apply sub_entries_drop. now apply IH.
    + apply sub_entries_keep; [exact (Hhead _ _ Hna Hn) | now apply IH].
Qed.

Lemma sub_tree_trans (c : inode) :
  forall a b, sub_tree a b -> sub_tree b c -> sub_tree a c.
Proof.
  induction c as [|r w es IH] using inode_ind; intros a b Hab Hbc.
  - inversion Hbc; subst. exact Hab.
  - inversion Hbc as [|r' w' esb es' Hesb]; subst.
    inversion Hab as [|r' w' esa es' Hesa]; subst.
    constructor. exact (sub_entries_trans _ _ _ Hesb IH _ Hesa).
Qed.

Lemma sub_entries_remove_entry nm es :
  sub_entries sub_tree (remove_entry nm es) es.
Proof.
  unfold remove_entry. induction es as [|[de c] rest IH]; cbn [filter]; [constructor|].
  destruct (negb _); [|now apply sub_entries_drop].
  apply sub_entries_keep; [apply sub_tree_refl | exact IH].
Qed.

Lemma sub_entries_update_entry nm (f : inode -> inode) es :
  (forall de c, find_entry nm es = Some (de, c) -> sub_tree (f c) c) ->
  sub_entries sub_tree (update_entry nm f es) es.
Proof.
  induction es as [|[de c] rest IH]; intros Hf; cbn [update_entry fst snd];
    [constructor|].
  unfold find_entry in Hf. cbn [find fst] in Hf.
  destruct (d_name de =? nm)%string.
  - apply sub_entries_keep; [now apply (Hf de) |].
    apply sub_entries_refl, Forall_forall. intros x _. apply sub_tree_refl.
  - apply sub_entries_keep; [apply sub_tree_refl | now apply IH].
Qed.

(** An object replaced by one with entries removed, anywhere in a tree,
    leaves the tree with entries removed. *)
Lemma sub_tree_modify (ns : list string) (n' : inode) :
  forall t n, lookup ns t = inl n -> sub_tree n' n ->
              sub_tree (modify ns (fun _ => n') t) t.
Proof.
  induction ns as [|c cs IH]; intros t n Hl Hsub; cbn [lookup modify] in *.
  - now injection Hl as <-.
  - destruct t as [|r w es]; [discriminate|].
    constructor. apply sub_entries_update_entry. intros de child Hf.
    rewrite Hf in Hl. exact (IH child n Hl Hsub).
Qed.

End SubTree.

Section Follows.

Variable config : Configuration.

Lemma follows_refl (w : World) : follows w w.
Proof.
  split; [apply sub_tree_refl|].
  split; [reflexivity | exists []; now rewrite app_nil_r].
Qed.

Lemma follows_trans (w1 w2 w3 : World) : follows w1 w2 -> follows w2 w3 -> follows w1 w3.
Proof.
  intros (Ht1 & Ho1 & l1 & Hs1) (Ht2 & Ho2 & l2 & Hs2).
  split; [exact (sub_tree_trans _ _ _ Ht2 Ht1)|].
  split; [congruence|].
  exists (l1 ++ l2). now rewrite Hs2, Hs1, app_assoc.
Qed.

Lemma follows_errno e (w : World) : follows w (with_errno e w).
Proof.
  split; [apply sub_tree_refl|].
  split; [reflexivity | exists []; cbn [with_errno stderr]; now rewrite app_nil_r].
Qed.

Lemma follows_putError m (w : World) : follows w (Runtime_putError m w).
Proof.
  split; [apply sub_tree_refl|]. split; [reflexivity | now exists [m]].
Qed.

Lemma follows_verbose m (w : World) : follows w (Runtime_verbose config m w).
Proof.
  unfold Runtime_verbose. destruct (verbose config); [|apply follows_refl].
  split; [apply sub_tree_refl|]. split; [reflexivity | now exists [m]].
Qed.

Lemma follows_stat path (w : World) : follows w (fst (fst (stat path w))).
Proof.
  unfold stat.
  destruct (lookup (resolve path) (fs w)); [apply follows_refl | apply follows_errno].
Qed.

Lemma follows_remove_under check parent name (w : World) :
  follows w (fst (remove_under check parent name w)).
Proof.
  unfold remove_under, fail.
  destruct (lookup parent (fs w)) as [[|r wr es]|e] eqn:El; try apply follows_errno.
  destruct (find_entry name es) as [[de target]|]; [|apply follows_errno].
  destruct (check wr target); [apply follows_errno|].
  split; cbn [fst with_fs fs open_dirs stderr].
  - apply (sub_tree_modify parent _ (fs w) _ El).
    constructor. apply sub_entries_remove_entry.
  - split; [reflexivity | exists []; now rewrite app_nil_r].
Qed.

Lemma follows_File_unlink path (w : World) :
  follows w (fst (File_unlink config path w)).
Proof.
  unfold File_unlink. destruct (simulate config); [apply follows_putError|].
  pose proof (follows_stat path w) as Hs.
  destruct (stat path w) as [[w1 rc] mode]. cbn [fst] in Hs.
  destruct (S_ISDIR mode).
  - unfold rmdir. destruct (split_last (resolve path)) as [[parent name]|].
    + pose proof (follows_remove_under rmdir_check parent name w1) as Hr.
      destruct (remove_under rmdir_check parent name w1) as [w2 r].
      exact (follows_trans _ _ _ Hs Hr).
    + exact (follows_trans _ _ _ Hs (follows_errno _ w1)).
  - unfold unlink. destruct (split_last (resolve path)) as [[parent name]|].
    + pose proof (follows_remove_under unlink_check parent name w1) as Hr.
      destruct (remove_under unlink_check parent name w1) as [w2 r].
      exact (follows_trans _ _ _ Hs Hr).
    + exact (follows_trans _ _ _ Hs (follows_errno _ w1)).
Qed.

(** [opendir] opens one stream when it returns one, and none when it
    fails. *)
Lemma opendir_streams path (w : World) :
  let '(w1, dir) := opendir path w in
  fs w1 = fs w
  /\ stderr w1 = stderr w
  /\ open_dirs w1 = match dir with
                    | Some _ => S (open_dirs w)
                    | None => open_dirs w
                    end.
Proof.
  unfold opendir. destruct (lookup (resolve path) (fs w)) as [n|e]; [|now repeat split].
  destruct (opendir_node n); now repeat split.
Qed.

Lemma follows_Directory_isEmpty path (w : World) :
  follows w (fst (Directory_isEmpty path w)).
Proof.
  unfold Directory_isEmpty. pose proof (opendir_streams path w) as Ho.
  destruct (opendir path w) as [w1 [dir|]]; destruct Ho as (Hf & Hs & Hk).
  - destruct (Directory_isEmpty_loop dir 0) as [index rest].
    split; cbn [fst closedir with_open_dirs open_dirs stderr fs].
    + rewrite Hf. apply sub_tree_refl.
    + split; [now rewrite Hk | exists []; now rewrite app_nil_r].
  - split; cbn [fst Runtime_putError with_stderr open_dirs stderr fs].
    + rewrite Hf. apply sub_tree_refl.
    + split; [exact Hk | rewrite Hs; eauto].
Qed.

Lemma follows_File_process path (w : World) :
  follows w (fst (File_process config path w)).
Proof.
  unfold File_process.
  destruct (File_shouldClobber config (basename path)); [|apply follows_refl].
  pose proof (follows_File_unlink path w) as Hu.
  destruct (File_unlink config path w) as [w1 r]. cbn [fst] in Hu.
  destruct (r =? u32 (-1)); [|exact Hu].
  exact (follows_trans _ _ _ Hu (follows_putError _ w1)).
Qed.

Lemma follows_Directory_process_file path (w : World) :
  follows w (Directory_process_file config path w).
Proof.
  unfold Directory_process_file.
  pose proof (follows_File_process path w) as Hp.
  destruct (File_process config path w) as [w1 r]. cbn [fst] in Hp.
  destruct (u32 r =? ENONE); [exact Hp|].
  exact (follows_trans _ _ _ Hp (follows_verbose _ w1)).
Qed.

Lemma follows_Directory_process_entry rec path de (w w' : World) :
  (forall p v v' rv, rec p v = Some (v', rv) -> follows v v') ->
  Directory_process_entry rec config path de w = Some w' -> follows w w'.
Proof.
  intros Hrec. unfold Directory_process_entry.
  assert (Hsame : Some w = Some w' -> follows w w')
    by (intros H; injection H as <-; apply follows_refl).
  destruct (_ || _); [exact Hsame|].
  assert (Hfile : Some (Directory_process_file config (entry_path path (d_name de)) w)
                  = Some w' -> follows w w').
  { intros H. injection H as <-. apply follows_Directory_process_file. }
  destruct (d_type de); try exact Hsame; try exact Hfile;
    try (destruct (preserveSpecial config); [exact Hsame | exact Hfile]).
  destruct (preserveHidden config && File_isHidden (d_name de)); [exact Hsame|].
  destruct (rec (entry_path path (d_name de)) w) as [[w1 rv]|] eqn:Er; [|discriminate].
  apply Hrec in Er.
  destruct (u32 rv =? ENONE).
  - pose proof (follows_Directory_isEmpty (entry_path path (d_name de)) w1) as He.
    destruct (Directory_isEmpty (entry_path path (d_name de)) w1) as [w2 empty].
    cbn [fst] in He. pose proof (follows_trans _ _ _ Er He) as H2.
    destruct empty.
    + pose proof (follows_File_unlink (entry_path path (d_name de)) w2) as Hu.
      destruct (File_unlink config (entry_path path (d_name de)) w2) as [w3 rc].
      cbn [fst] in Hu. pose proof (follows_trans _ _ _ H2 Hu) as H3.
      destruct (rc =? u32 (-1)); intros H; injection H as <-; [|exact H3].
      exact (follows_trans _ _ _ H3 (follows_putError _ w3)).
    + intros H. injection H as <-.
      exact (follows_trans _ _ _ H2 (follows_verbose _ w2)).
  - intros H. injection H as <-.
    exact (follows_trans _ _ _ Er (follows_putError _ w1)).
Qed.

Lemma follows_Directory_process_loop rec path (dir : Directory) :
  (forall p v v' rv, rec p v = Some (v', rv) -> follows v v') ->
  forall (w w' : World),
    Directory_process_loop rec config path dir w = Some w' -> follows w w'.
Proof.
  intros Hrec. induction dir as [|de rest IH]; intros w w'; cbn [Directory_process_loop].
  - intros H. injection H as <-. apply follows_refl.
  - destruct (Directory_process_entry rec config path de w) as [w1|] eqn:E; [|discriminate].
    intros H.
    exact (follows_trans _ _ _ (follows_Directory_process_entry _ _ _ _ _ Hrec E)
             (IH _ _ H)).
Qed.

(** A walk closes the streams it opens, those of the directories below
    included; it adds to the error stream, and takes from the tree. *)
Lemma follows_Directory_process (fuel : nat) :
  forall path (w w' : World) rv,
    Directory_process fuel config path w = Some (w', rv) -> follows w w'.
Proof.
  induction fuel as [|fuel IH]; intros path w w' rv; cbn [Directory_process];
    [discriminate|].
  pose proof (opendir_streams path w) as Ho.
  destruct (opendir path w) as [w1 [dir|]]; destruct Ho as (Hf & Hs & Hk).
  - destruct (Directory_process_loop _ config path dir w1) as [w2|] eqn:El; [|discriminate].
    intros H. injection H as <- _.
    destruct (follows_Directory_process_loop _ _ _ IH _ _ El) as (Ht2 & Hk2 & lines & Hs2).
    split; cbn [closedir with_open_dirs open_dirs stderr fs].
    + now rewrite <- Hf.
    + split; [now rewrite Hk2, Hk | exists lines; now rewrite Hs2, Hs].
  - intros H. injection H as <- _.
    split; [rewrite Hf; apply sub_tree_refl|].
    split; [exact Hk | exists []; now rewrite Hs, app_nil_r].
Qed.

Lemma follows_main_file fuel fileName dirty (w w' : World) dirty' :
  main_file fuel config fileName dirty w = Some (w', dirty') -> follows w w'.
Proof.
  unfold main_file. pose proof (follows_stat fileName w) as Hs.
  destruct (stat fileName w) as [[w1 rc] mode]. cbn [fst] in Hs.
  destruct (S_ISDIR mode).
  - destruct (Directory_process fuel config fileName _) as [[w3 rv]|] eqn:Ed; [|discriminate].
    apply follows_Directory_process in Ed.
    pose proof (follows_Directory_isEmpty fileName w3) as He.
    destruct (Directory_isEmpty fileName w3) as [w4 empty]. cbn [fst] in He.
    intros H. injection H as <- _.
    exact (follows_trans _ _ _ Hs
             (follows_trans _ _ _ (follows_verbose _ w1) (follows_trans _ _ _ Ed He))).
  - pose proof (follows_File_process fileName
                  (Runtime_verbose config ("Processing node " +++ fileName +++ nl) w1)) as Hp.
    destruct (File_process config fileName _) as [w3 r]. cbn [fst] in Hp.
    intros H. injection H as <- _.
    exact (follows_trans _ _ _ Hs (follows_trans _ _ _ (follows_verbose _ w1) Hp)).
Qed.

Lemma follows_main_loop fuel (files : list string) :
  forall dirty (w w' : World) dirty',
    main_loop fuel config files dirty w = Some (w', dirty') -> follows w w'.
Proof.
  induction files as [|f rest IH]; intros dirty w w' dirty'; cbn [main_loop].
  - intros H. injection H as <- _. apply follows_refl.
  - destruct (main_file fuel config f dirty w) as [[w1 d1]|] eqn:E; [|discriminate].
    intros H.
    exact (follows_trans _ _ _ (follows_main_file _ _ _ _ _ _ E) (IH _ _ _ _ H)).
Qed.

Lemma follows_main fuel imageName files (w w' : World) rc :
  main fuel imageName config files w = Some (w', rc) -> follows w w'.
Proof.
  unfold main. destruct files as [|f rest].
  - intros H. injection H as <- _. apply follows_putError.
  - destruct (main_loop fuel config (f :: rest) false w) as [[w1 d]|] eqn:E; [|discriminate].
    intros H. injection H as <- _. exact (follows_main_loop _ _ _ _ _ _ E).
Qed.

End Follows.





(* ================================================================== *)
(** * The command line *)

Section CommandLine.

Variable imageName : string.

(** The options the switch takes in, by their codes. *)
Lemma sets_inv (optionOrd : Z) (optarg : option string) :
  sets (optionOrd, optarg) = true ->
  (optionOrd = CLOBBER_EXT /\ exists a, optarg = Some a)
  \/ (optionOrd = CLOBBER_NAME /\ exists a, optarg = Some a)
  \/ optionOrd = PRESERVE_HIDDEN \/ optionOrd = PRESERVE_SPECIAL
  \/ optionOrd = RUN_SIMULATE \/ optionOrd = VERBOSE_LOGGING.
Proof.
  unfold sets. intros H.
  repeat (apply orb_true_iff in H as [H|H]);
    try (apply Z.eqb_eq in H; tauto).
  destruct optarg as [a|]; [|discriminate].
  apply orb_true_iff in H as [H|H]; apply Z.eqb_eq in H; eauto 6.
Qed.

Lemma main_options_sets option rest (c : Configuration) (w : World) :
  sets option = true ->
  main_options imageName (option :: rest) c w
  = main_options imageName rest (take_option c option) w.
Proof.
  destruct option as [optionOrd optarg]. intros H.
  apply sets_inv in H.
  destruct H as [ [ -> [a -> ] ] | [ [ -> [a -> ] ] | [ -> | [ -> | [ -> | -> ] ] ] ] ];
    reflexivity.
Qed.

(** Options that are all taken in leave the configuration they build, and
    write nothing. *)
Lemma main_options_all_set (options : list (Z * option string)) :
  forall (c : Configuration) (w : World),
    Forall (fun o => sets o = true) options ->
    main_options imageName options c w = (w, inl (fold_left take_option options c)).
Proof.
  induction options as [|o rest IH]; intros c w Hall; [reflexivity|].
  inversion Hall as [|x l Ho Hrest]; subst.
  rewrite (main_options_sets o rest c w Ho). now apply IH.
Qed.

(** The first option that is not taken in ends the run: with status 0
    when it is [HELP], with [EINVAL] otherwise, and with the tree as it
    was. *)
Lemma main_options_stops option rest (c : Configuration) (w : World) :
  sets option = false ->
  fst option <> -1 ->
  exists w',
    main_options imageName (option :: rest) c w
    = (w', inr (if fst option =? HELP then 0 else EINVAL))
    /\ fs w' = fs w.
Proof.
  destruct option as [optionOrd optarg]. cbn [fst]. intros Hs Hne.
  unfold sets in Hs.
  repeat (apply orb_false_iff in Hs as [Hs ?]).
  cbn [main_options].
  destruct (Z.eqb_spec optionOrd (-1)) as [|_]; [contradiction|].
  destruct (optionOrd =? HELP) eqn:Eh; [eexists; split; reflexivity|].
  repeat match goal with H : (optionOrd =? _) = false |- _ => rewrite H; clear H end.
  destruct optarg as [a|].
  - apply orb_false_iff in Hs as [-> ->]. eexists; split; reflexivity.
  - destruct (optionOrd =? CLOBBER_EXT); [eexists; split; reflexivity|].
    destruct (optionOrd =? CLOBBER_NAME); eexists; split; reflexivity.
Qed.

Lemma main_options_app before option after :
  forall (c : Configuration) (w : World),
    Forall (fun o => sets o = true) before ->
    main_options imageName (before ++ option :: after) c w
    = main_options imageName (option :: after) (fold_left take_option before c) w.
Proof.
  induction before as [|o rest IH]; intros c w Hall; [reflexivity|].
  inversion Hall as [|x l Ho Hrest]; subst.
  rewrite <- app_comm_cons, (main_options_sets o _ c w Ho). now apply IH.
Qed.

End CommandLine.

Section TakenOptions.

Lemma In_code_cons (K : Z) (o : Z * option string) rest :
  (exists a, In (K, a) (o :: rest)) <-> fst o = K \/ exists a, In (K, a) rest.
Proof.
  split.
  - intros [a [H|H]]; [left; now subst | right; now exists a].
  - intros [H|[a H]]; [exists (snd o); left; destruct o; cbn in *; now subst
                      | exists a; now right].
Qed.

(** The fields of the configuration after one option is taken in. *)
Lemma take_option_fields (c : Configuration) (o : Z * option string) :
  sets o = true ->
  let c' := take_option c o in
  (verbose c' = true <-> verbose c = true \/ fst o = VERBOSE_LOGGING)
  /\ (simulate c' = true <-> simulate c = true \/ fst o = RUN_SIMULATE)
  /\ (preserveHidden c' = true <-> preserveHidden c = true \/ fst o = PRESERVE_HIDDEN)
  /\ (preserveSpecial c' = true <-> preserveSpecial c = true \/ fst o = PRESERVE_SPECIAL)
  /\ (forall x, In x (clobberExtensions c')
                <-> In x (clobberExtensions c) \/ o = (CLOBBER_EXT, Some x))
  /\ (forall x, In x (clobberNames c')
                <-> In x (clobberNames c) \/ o = (CLOBBER_NAME, Some x)).
Proof.
  destruct o as [optionOrd optarg]. intros Ho. apply sets_inv in Ho.
  destruct Ho as [ [ -> [a -> ] ] | [ [ -> [a -> ] ] | [ -> | [ -> | [ -> | -> ] ] ] ] ];
    cbv zeta; cbn [take_option Z.eqb fst];
    change (CLOBBER_EXT =? CLOBBER_EXT) with true;
    change (CLOBBER_NAME =? CLOBBER_EXT) with false;
    change (CLOBBER_NAME =? CLOBBER_NAME) with true;
    change (PRESERVE_HIDDEN =? CLOBBER_EXT) with false;
    change (PRESERVE_HIDDEN =? CLOBBER_NAME) with false;
    change (PRESERVE_HIDDEN =? PRESERVE_HIDDEN) with true;
    change (PRESERVE_SPECIAL =? CLOBBER_EXT) with false;
    change (PRESERVE_SPECIAL =? CLOBBER_NAME) with false;
    change (PRESERVE_SPECIAL =? PRESERVE_HIDDEN) with false;
    change (PRESERVE_SPECIAL =? PRESERVE_SPECIAL) with true;
    change (RUN_SIMULATE =? CLOBBER_EXT) with false;
    change (RUN_SIMULATE =? CLOBBER_NAME) with false;
    change (RUN_SIMULATE =? PRESERVE_HIDDEN) with false;
    change (RUN_SIMULATE =? PRESERVE_SPECIAL) with false;
    change (RUN_SIMULATE =? RUN_SIMULATE) with true;
    change (VERBOSE_LOGGING =? CLOBBER_EXT) with false;
    change (VERBOSE_LOGGING =? CLOBBER_NAME) with false;
    change (VERBOSE_LOGGING =? PRESERVE_HIDDEN) with false;
    change (VERBOSE_LOGGING =? PRESERVE_SPECIAL) with false;
    change (VERBOSE_LOGGING =? RUN_SIMULATE) with false;
    change (VERBOSE_LOGGING =? VERBOSE_LOGGING) with true;
    cbv iota;
    cbn [verbose simulate preserveHidden preserveSpecial clobberExtensions clobberNames
           Configuration_clobberExtension Configuration_clobberName
           set_preserveHidden set_preserveSpecial set_simulate set_verbose];
    repeat match goal with |- _ /\ _ => split end;
    try (intros x; rewrite ?in_app_iff; cbn [In]);
    intuition (try discriminate; try congruence).
Qed.

(** The fields of the configuration the options build. *)
Lemma fold_take_option (options : list (Z * option string)) :
  forall c : Configuration,
    Forall (fun o => sets o = true) options ->
    let c' := fold_left take_option options c in
    (verbose c' = true <-> verbose c = true \/ exists a, In (VERBOSE_LOGGING, a) options)
    /\ (simulate c' = true <-> simulate c = true \/ exists a, In (RUN_SIMULATE, a) options)
    /\ (preserveHidden c' = true
        <-> preserveHidden c = true \/ exists a, In (PRESERVE_HIDDEN, a) options)
    /\ (preserveSpecial c' = true
        <-> preserveSpecial c = true \/ exists a, In (PRESERVE_SPECIAL, a) options)
    /\ (forall x, In x (clobberExtensions c')
                  <-> In x (clobberExtensions c) \/ In (CLOBBER_EXT, Some x) options)
    /\ (forall x, In x (clobberNames c')
                  <-> In x (clobberNames c) \/ In (CLOBBER_NAME, Some x) options).
Proof.
  induction options as [|o rest IH]; intros c Hall.
  - cbn. repeat split; try tauto; try (intros [H|[a []]]; exact H);
      intros x; tauto.
  - inversion Hall as [|x l Ho Hrest]; subst.
    cbn [fold_left].
    specialize (IH (take_option c o) Hrest). cbv zeta in IH |- *.
    destruct IH as (Hv & Hs & Hh & Hp & He & Hn).
    destruct (take_option_fields c o Ho) as (Sv & Ss & Sh & Sp & Se & Sn).
    repeat match goal with |- _ /\ _ => split end; try intros x;
      rewrite ?Hv, ?Hs, ?Hh, ?Hp, ?He, ?Hn, ?Sv, ?Ss, ?Sh, ?Sp, ?Se, ?Sn,
        ?In_code_cons; cbn [In]; tauto.
Qed.

End TakenOptions.





(* ================================================================== *)
(** * The outcome of File_process *)

Section Outcome.

Variable config : Configuration.
Hypothesis Hreal : simulate config = false.

Lemma rmdir_check_error wr target e :
  rmdir_check wr target = Some e -> In e error_numbers.
Proof.
  unfold rmdir_check.
  destruct wr; cbn [negb]; [|intros H; injection H as <-; simpl; tauto].
  destruct target as [|rd wd [|x es]]; intros H; try discriminate;
    injection H as <-; simpl; tauto.
Qed.

Lemma unlink_check_error wr target e :
  unlink_check wr target = Some e -> In e error_numbers.
Proof.
  unfold unlink_check.
  destruct wr; cbn [negb]; [|intros H; injection H as <-; simpl; tauto].
  destruct (is_dir target); intros H; try discriminate.
  injection H as <-. simpl. tauto.
Qed.

(** A removal either takes the entry away, or leaves the tree as it was
    and an error number in [errno]. *)
Lemma remove_under_outcome check parent name (w : World) :
  (forall wr target e, check wr target = Some e -> In e error_numbers) ->
  let '(w', r) := remove_under check parent name w in
  stderr w' = stderr w
  /\ ((r = 0 /\ lookup (parent ++ [name]) (fs w') = inr ENOENT)
      \/ (r = -1 /\ fs w' = fs w /\ In (errno w') error_numbers)).
Proof.
  intros Hcheck.
  pose proof (remove_under_removes check parent name w) as Hgone.
  unfold remove_under in *.
  destruct (lookup parent (fs w)) as [[|rd wr es]|e] eqn:E.
  - split; [reflexivity|]. right. repeat split. simpl. tauto.
  - destruct (find_entry name es) as [[de target]|].
    + destruct (check wr target) as [e|] eqn:Ec.
      * split; [reflexivity|]. right. repeat split. exact (Hcheck _ _ _ Ec).
      * split; [reflexivity|]. left. split; [reflexivity|]. now apply Hgone.
    + split; [reflexivity|]. right. repeat split. simpl. tauto.
  - split; [reflexivity|]. right. repeat split. cbn [fail fst errno with_errno].
    apply lookup_error in E as [->| ->]; simpl; tauto.
Qed.

Lemma File_unlink_outcome path (w : World) :
  let '(w', r) := File_unlink config path w in
  stderr w' = stderr w
  /\ ((r = 0 /\ lookup (resolve path) (fs w') = inr ENOENT)
      \/ (r = u32 (-1) /\ fs w' = fs w /\ In (errno w') error_numbers)).
Proof.
  unfold File_unlink. rewrite Hreal.
  assert (Hstat : fs (fst (fst (stat path w))) = fs w
                  /\ stderr (fst (fst (stat path w))) = stderr w).
  { unfold stat. now destruct (lookup (resolve path) (fs w)). }
  destruct (stat path w) as [[w1 rc] mode]. cbn [fst] in Hstat.
  destruct Hstat as [Hfs Herr].
  assert (Hboth : forall check failure,
             (forall wr target e, check wr target = Some e -> In e error_numbers) ->
             In failure error_numbers ->
             let '(w2, r) :=
               match split_last (resolve path) with
               | Some (parent, name) => remove_under check parent name w1
               | None => fail failure w1
               end in
             stderr w2 = stderr w
             /\ ((u32 r = 0 /\ lookup (resolve path) (fs w2) = inr ENOENT)
                 \/ (u32 r = u32 (-1) /\ fs w2 = fs w /\ In (errno w2) error_numbers))).
  { intros check failure Hcheck Hfailure.
    destruct (split_last (resolve path)) as [[parent name]|] eqn:Es.
    - apply split_last_Some in Es. rewrite Es.
      pose proof (remove_under_outcome check parent name w1 Hcheck) as H.
      destruct (remove_under check parent name w1) as [w2 r].
      destruct H as [Hs [[-> Hgone]|[-> [Hsame Hin]]]].
      + split; [congruence|]. left. now split.
      + split; [congruence|]. right. repeat split; [congruence | exact Hin].
    - split; [exact Herr|]. right. repeat split; [exact Hfs | exact Hfailure]. }
  destruct (S_ISDIR mode).
  - specialize (Hboth rmdir_check EBUSY rmdir_check_error). unfold rmdir.
    destruct (match split_last (resolve path) with
              | Some (parent, name) => remove_under rmdir_check parent name w1
              | None => fail EBUSY w1
              end) as [w2 r].
    apply Hboth. simpl. tauto.
  - specialize (Hboth unlink_check EISDIR unlink_check_error). unfold unlink.
    destruct (match split_last (resolve path) with
              | Some (parent, name) => remove_under unlink_check parent name w1
              | None => fail EISDIR w1
              end) as [w2 r].
    apply Hboth. simpl. tauto.
Qed.

End Outcome.



(* ================================================================== *)
(** * The lists of the configuration *)


(* ================================================================== *)
(** * The blocks the routines allocate *)

Section Blocks.

Lemma strcpy_to_malloc_short (s : string) :
  in_bounds (strcpy_to_malloc s) = false
  /\ store_width (strcpy_to_malloc s) = block_size (strcpy_to_malloc s) + 1.
Proof.
  unfold in_bounds, strcpy_to_malloc. cbn [block_size store_offset store_width].
  split; [|lia].
  apply andb_false_iff. right. apply Z.leb_gt. lia.
Qed.

Lemma store_to_realloc_short (pointer_size len : Z) :
  1 < pointer_size -> 0 <= len ->
  in_bounds (store_to_realloc pointer_size len) = false.
Proof.
  intros Hp Hl. unfold in_bounds, store_to_realloc.
  cbn [block_size store_offset store_width].
  apply andb_false_iff. right. apply Z.leb_gt. nia.
Qed.

End Blocks.

(** X11. The blocks are asked for too small. [File_process] and the two
    routines that add to the configuration copy a string, with the null
    byte that ends it, into a block of [strlen] bytes: one byte short. And
    the two routines store the pointer to the copy in the cell [len] of an
    array they have asked [len + 1] bytes for, not [len + 1] pointers:
    with pointers of more than one byte that store is outside the block,
    whatever [len] is. *)
Theorem stores_out_of_bounds (pointer_size : Z) (config : Configuration)
  (added path : string) :
  1 < pointer_size ->
  Forall (fun s => in_bounds s = false)
    (Configuration_clobberExtension_stores pointer_size config added
     ++ Configuration_clobberName_stores pointer_size config added
     ++ File_process_stores path)
  /\ Forall (fun s => store_offset s + store_width s = block_size s + 1)
       [strcpy_to_malloc added; strcpy_to_malloc path].
Proof.
  intros Hp.
  unfold Configuration_clobberExtension_stores, Configuration_clobberName_stores,
    File_process_stores.
  cbn [app].
  split; [|repeat constructor; cbn [strcpy_to_malloc store_offset store_width block_size]; lia].
  repeat constructor;
    try apply strcpy_to_malloc_short;
    apply store_to_realloc_short; try exact Hp; apply Nat2Z.is_nonneg.
Qed.

Lemma stores_out_of_bounds_witness :
  Forall (fun s => in_bounds s = false)
    (Configuration_clobberExtension_stores 8 Configuration_new "tmp"
     ++ Configuration_clobberName_stores 8 Configuration_new "tmp"
     ++ File_process_stores "root/f.tmp")
  /\ Forall (fun s => store_offset s + store_width s = block_size s + 1)
       [strcpy_to_malloc "tmp"; strcpy_to_malloc "root/f.tmp"].
Proof.
  apply (stores_out_of_bounds 8 Configuration_new "tmp" "root/f.tmp").
  reflexivity.
Defined.

(* ================================================================== *)
(** * The root of a run *)


